(** * Component library panel (desktop-frontend/src/component_library.py)

    A shallow embedding of the catalog panel of the desktop front end:
    the CSV loader [_load_components], the grouping and rendering pass
    [_populate_icons], the icon path rule [_get_icon_path], the search
    filter [_filter_icons] and the drag handlers of [ComponentButton].

    Python values are modelled as follows.
    - [str] is [string]; a character is its code point, and the model
      covers the code points 0..255.
    - a [dict] is an association list in insertion order with unique keys.
    - the instance attributes of [ComponentLibrary] are a record that is
      threaded through a state-and-exception monad.
    - the file system is an oracle: the CSV source on one side, a
      predicate on paths for the icons on the other. *)

From Stdlib Require Import List String Ascii Bool NArith ZArith Lia.
From Stdlib Require Import Sorting.Sorted Sorting.Permutation.
Import ListNotations.

Set Implicit Arguments.

(** ** Python strings *)

Module PyStr.

Definition code (c : ascii) : N := N_of_ascii c.

(** [str.isspace] on one character, code points below 256. *)
Definition isspace (c : ascii) : bool :=
  let n := code c in
  ((9 <=? n) && (n <=? 13) || (28 <=? n) && (n <=? 32)
   || (n =? 133) || (n =? 160))%N.

(** [str.lower] on one character: A-Z and the accented capitals
    U+00C0..U+00DE (the multiplication sign U+00D7 apart). *)
Definition lower_char (c : ascii) : ascii :=
  let n := code c in
  if ((65 <=? n) && (n <=? 90)
      || (192 <=? n) && (n <=? 222) && negb (n =? 215))%N
  then ascii_of_N (n + 32) else c.

Fixpoint lower (s : string) : string :=
  match s with
  | EmptyString => EmptyString
  | String c s' => String (lower_char c) (lower s')
  end.

Fixpoint lstrip (s : string) : string :=
  match s with
  | EmptyString => EmptyString
  | String c s' => if isspace c then lstrip s' else s
  end.

Fixpoint rstrip (s : string) : string :=
  match s with
  | EmptyString => EmptyString
  | String c s' =>
      match rstrip s' with
      | EmptyString => if isspace c then EmptyString else String c EmptyString
      | r => String c r
      end
  end.

(** [s.strip()] *)
Definition strip (s : string) : string := rstrip (lstrip s).

(** [s.startswith(p)] *)
Fixpoint startswith (p s : string) : bool :=
  match p, s with
  | EmptyString, _ => true
  | String _ _, EmptyString => false
  | String a p', String b s' => Ascii.eqb a b && startswith p' s'
  end.

(** [s.endswith(p)] for a one-character [p] *)
Fixpoint endswith_char (c : ascii) (s : string) : bool :=
  match s with
  | EmptyString => false
  | String a EmptyString => Ascii.eqb a c
  | String _ s' => endswith_char c s'
  end.

(** [sub in s] *)
Fixpoint contains (sub s : string) : bool :=
  startswith sub s ||
  match s with
  | EmptyString => false
  | String _ s' => contains sub s'
  end.

(** [a < b] and [a <= b] on [str]: lexicographic on code points. *)
Definition lt (a b : string) : Prop := String.compare a b = Lt.
Definition le (a b : string) : Prop := String.compare a b <> Gt.

(** The mathematical notion [contains] decides. *)
Definition substring_of (sub s : string) : Prop :=
  exists pre post, s = (pre ++ sub ++ post)%string.

(** A string all of whose characters are white space. *)
Fixpoint blank (s : string) : bool :=
  match s with
  | EmptyString => true
  | String c s' => isspace c && blank s'
  end.

(** The last character of a string, if any. *)
Fixpoint last_char (s : string) : option ascii :=
  match s with
  | EmptyString => None
  | String c EmptyString => Some c
  | String _ s' => last_char s'
  end.

(** The first character of a string, if any. *)
Definition first_char (s : string) : option ascii :=
  match s with
  | EmptyString => None
  | String c _ => Some c
  end.

(** Neither end of the string is white space. *)
Definition trimmed (s : string) : Prop :=
  (forall c, first_char s = Some c -> isspace c = false) /\
  (forall c, last_char s = Some c -> isspace c = false).

End PyStr.

(** ** [os.path] (POSIX flavour) *)

Module OsPath.

Definition sep : ascii := "/"%char.

(** One step of [os.path.join]: an absolute component discards what
    precedes it, an empty or slash-terminated prefix takes no extra
    separator. *)
Definition join2 (path b : string) : string :=
  if PyStr.startswith (String sep EmptyString) b then b
  else if (path =? "")%string || PyStr.endswith_char sep path
       then (path ++ b)%string
       else (path ++ String sep b)%string.

Definition join (a : string) (p : list string) : string :=
  fold_left join2 p a.

End OsPath.

(** ** Data of the panel *)

(** One element of [component_data]: the dict literal built by the
    loader always has the three keys ['parent'], ['name'], ['object']. *)
Record component : Type := Component {
  parent : string;
  name : string;
  object : string
}.

(** [QPoint], widget-local pixel coordinates. *)
Record QPoint : Type := Point { px : Z; py : Z }.

(** [ComponentButton]: the entry it carries, whether [__init__] set an
    icon, the two ad-hoc properties set by [_populate_icons], the flag
    last given to [setVisible] (a new widget is not hidden) and the press
    position ([None] until a left press has been seen). *)
Record ComponentButton : Type := Button {
  btn_data : component;
  has_icon : bool;
  prop_category : string;
  prop_component_name : string;
  visible : bool;
  dragStartPosition : option QPoint
}.

(** Widgets added to [scroll_layout]: a category label, then the grid
    holding that category's buttons. *)
Inductive widget : Type :=
| QLabel (text : string)
| Grid (cells : list ComponentButton).

(** Exceptions the loader can meet; all derive from [Exception]. *)
Inductive exn : Type :=
| KeyError (key : string)
| AttributeError
| OSError
| ReaderError.

(** Instance attributes of [ComponentLibrary], with what was printed. *)
Record library : Type := Library {
  component_data : list component;
  icon_buttons : list ComponentButton;
  scroll_layout : list widget;
  stdout : list exn
}.

(** ** The CSV source *)

Module Csv.

(** What [csv.reader] yields for one record of the file: its fields,
    or an exception raised while the record is read ([csv.Error] for a
    field longer than [csv.field_size_limit()] or, before Python 3.11,
    for a NUL character; [UnicodeDecodeError] for bytes that are not
    UTF-8). *)
Inductive record : Type :=
| Fields (fs : list string)
| Garbled.

(** [ui/assets/Component_Details.csv] as the loader sees it. *)
Inductive source : Type :=
| Missing
| Unopenable
| Readable (records : list record).

(** A row dict of [DictReader]: a value is a [str] or [None]. *)
Definition row : Type := list (string * option string).

(** [d[k] = v] *)
Fixpoint dict_set (k : string) (v : option string) (d : row) : row :=
  match d with
  | [] => [(k, v)]
  | (k', v') :: d' =>
      if (k' =? k)%string then (k, v) :: d' else (k', v') :: dict_set k v d'
  end.

(** [d[k]], [None] standing for [KeyError]. *)
Fixpoint dict_get (k : string) (d : row) : option (option string) :=
  match d with
  | [] => None
  | (k', v) :: d' => if (k' =? k)%string then Some v else dict_get k d'
  end.

(** [DictReader.__next__]: [dict(zip(fieldnames, row))], then [restval]
    ([None]) for the field names a short row leaves over.  The entry
    stored under [restkey] for a long row has the key [None], which no
    lookup of the loader uses; it is left out. *)
Definition dict_row (fieldnames fs : list string) : row :=
  fold_left (fun d k => dict_set k None d)
    (skipn (List.length fs) fieldnames)
    (fold_left (fun d kv => dict_set (fst kv) (Some (snd kv)) d)
       (combine fieldnames fs) []).

End Csv.

(** ** State and exceptions *)

Module M.

Inductive outcome (A : Type) : Type :=
| Returned (a : A)
| Raised (e : exn).
Arguments Raised {A} e.

(** A computation on the panel: it may change the attributes before it
    returns or raises; the changes it made survive a [raise]. *)
Definition t (A : Type) : Type := library -> outcome A * library.

Definition ret {A} (a : A) : t A := fun s => (Returned a, s).
Definition raise {A} (e : exn) : t A := fun s => (Raised e, s).
Definition bind {A B} (m : t A) (k : A -> t B) : t B :=
  fun s =>
    match m s with
    | (Returned a, s') => k a s'
    | (Raised e, s') => (Raised e, s')
    end.

(** [try: m except Exception as e: h e] *)
Definition try_except {A} (m : t A) (h : exn -> t A) : t A :=
  fun s =>
    match m s with
    | (Returned a, s') => (Returned a, s')
    | (Raised e, s') => h e s'
    end.

Definition modify (f : library -> library) : t unit :=
  fun s => (Returned tt, f s).

End M.

Declare Scope py_scope.
Delimit Scope py_scope with py.
Notation "x <- m ;; k" := (M.bind m (fun x => k))
  (at level 61, m at next level, right associativity) : py_scope.
Notation "m ;;; k" := (M.bind m (fun _ => k))
  (at level 61, right associativity) : py_scope.
Open Scope py_scope.

(** ** ComponentLibrary *)

Section ComponentLibrary.

(** The backing store: the record source and [os.path.exists] on the
    icon paths. *)
Variable csv_file : Csv.source.
Variable path_exists : string -> bool.

(** Truth value of a field: [None] and [''] are false. *)
Definition truthy (v : option string) : bool :=
  match v with
  | Some s => negb (s =? "")%string
  | None => false
  end.

(** [row[k]] *)
Definition getitem (r : Csv.row) (k : string) : M.t (option string) :=
  match Csv.dict_get k r with
  | Some v => M.ret v
  | None => M.raise (KeyError k)
  end.

(** [v.strip()] *)
Definition strip_of (v : option string) : M.t string :=
  match v with
  | Some s => M.ret (PyStr.strip s)
  | None => M.raise AttributeError
  end.

Definition append_component (c : component) : M.t unit :=
  M.modify (fun s =>
    Library (component_data s ++ [c]) (icon_buttons s)
            (scroll_layout s) (stdout s)).

Definition print_error (e : exn) : M.t unit :=
  M.modify (fun s =>
    Library (component_data s) (icon_buttons s)
            (scroll_layout s) (stdout s ++ [e])).

(** Body of the [for row in reader] loop (lines 112-117). *)
Definition load_row (r : Csv.row) : M.t unit :=
  p <- getitem r "parent" ;;
  if truthy p then
    n <- getitem r "name" ;;
    if truthy n then
      p1 <- getitem r "parent" ;;
      sp <- strip_of p1 ;;
      n1 <- getitem r "name" ;;
      sn <- strip_of n1 ;;
      o <- getitem r "object" ;;
      so <- (if truthy o
             then o1 <- getitem r "object" ;; strip_of o1
             else M.ret ""%string) ;;
      append_component (Component sp sn so)
    else M.ret tt
  else M.ret tt.

(** Iteration of the [DictReader] over the records after the header:
    blank records are passed over, a record the reader fails on raises. *)
Fixpoint for_rows (fieldnames : list string) (recs : list Csv.record)
  : M.t unit :=
  match recs with
  | [] => M.ret tt
  | Csv.Garbled :: _ => M.raise ReaderError
  | Csv.Fields [] :: rest => for_rows fieldnames rest
  | Csv.Fields fs :: rest =>
      load_row (Csv.dict_row fieldnames fs) ;;; for_rows fieldnames rest
  end.

(** The [with open(...)] block: opening may fail; the first record is
    the header. *)
Definition read_source : M.t unit :=
  match csv_file with
  | Csv.Missing | Csv.Unopenable => M.raise OSError
  | Csv.Readable [] => M.ret tt
  | Csv.Readable (Csv.Garbled :: _) => M.raise ReaderError
  | Csv.Readable (Csv.Fields fieldnames :: recs) => for_rows fieldnames recs
  end.

Definition source_exists : bool :=
  match csv_file with
  | Csv.Missing => false
  | _ => true
  end.

Definition _load_components : M.t unit :=
  if negb source_exists then M.ret tt
  else M.try_except read_source print_error.

(** [sorted(l, key=key)]: the stable ascending sort on string keys.
    A stable sort has one possible result; it is computed here by
    insertion, an element going before the first one that is not
    smaller. *)
Section Sorted.
Variable A : Type.
Variable key : A -> string.

Fixpoint insert (x : A) (l : list A) : list A :=
  match l with
  | [] => [x]
  | y :: l' =>
      if (key y <? key x)%string then y :: insert x l' else x :: y :: l'
  end.

Definition sorted (l : list A) : list A := fold_right insert [] l.
End Sorted.

(** The [grouped] dict: category to the components of that category. *)
Definition groups : Type := list (string * list component).

(** [if parent not in grouped: grouped[parent] = []] then
    [grouped[parent].append(component)] *)
Fixpoint group_append (c : component) (g : groups) : groups :=
  match g with
  | [] => [(parent c, [c])]
  | (k, l) :: g' =>
      if (k =? parent c)%string then (k, l ++ [c]) :: g'
      else (k, l) :: group_append c g'
  end.

Definition grouped (data : list component) : groups :=
  fold_left (fun g c => group_append c g) data [].

Definition keys (g : groups) : list string := map fst g.

(** [grouped[k]] for a key of the dict *)
Fixpoint group_get (k : string) (g : groups) : list component :=
  match g with
  | [] => []
  | (k', l) :: g' => if (k' =? k)%string then l else group_get k g'
  end.

Definition _get_icon_path (parent name : string) : string :=
  let base_path := OsPath.join "ui" ["assets"%string; "png"%string; parent] in
  OsPath.join base_path [(name ++ ".png")%string].

(** [ComponentButton(component, icon_path)] followed by the two
    [setProperty] calls of [_populate_icons]. *)
Definition new_button (parent_name : string) (c : component)
           (icon_path : string) : ComponentButton :=
  Button c (path_exists icon_path) parent_name (name c) true None.

(** The inner loop (lines 157-170) over the sorted components of one
    category: a button for each component whose icon exists.  The grid
    cell of a button is not modelled. *)
Fixpoint add_buttons (parent_name : string) (cs : list component)
  : list ComponentButton :=
  match cs with
  | [] => []
  | c :: rest =>
      let icon_path := _get_icon_path parent_name (name c) in
      if path_exists icon_path
      then new_button parent_name c icon_path :: add_buttons parent_name rest
      else add_buttons parent_name rest
  end.

(** One round of the outer loop (lines 136-172). *)
Definition add_category (g : groups) (s : library) (parent_name : string)
  : library :=
  let bs :=
    add_buttons parent_name (sorted name (group_get parent_name g)) in
  Library (component_data s) (icon_buttons s ++ bs)
          (scroll_layout s ++ [QLabel parent_name; Grid bs]) (stdout s).

Definition populate (s : library) : library :=
  let g := grouped (component_data s) in
  fold_left (add_category g) (sorted (fun k => k) (keys g))
    (Library (component_data s) [] [] (stdout s)).

Definition _populate_icons : M.t unit := M.modify populate.

(** [ComponentLibrary.__init__]; [_setup_ui] only builds widgets. *)
Definition __init__ : M.t unit :=
  M.modify (fun _ => Library [] [] [] []) ;;;
  _load_components ;;;
  _populate_icons.

(** The panel after construction. *)
Definition panel : library := snd (__init__ (Library [] [] [] [])).

Definition setVisible (v : bool) (b : ComponentButton) : ComponentButton :=
  Button (btn_data b) (has_icon b) (prop_category b)
         (prop_component_name b) v (dragStartPosition b).

(** Body of the loop of [_filter_icons] for one button. *)
Definition filter_button (search_text : string) (button : ComponentButton)
  : ComponentButton :=
  let category := PyStr.lower (prop_category button) in
  let component := PyStr.lower (prop_component_name button) in
  let matches :=
    PyStr.contains search_text component
    || PyStr.contains search_text category in
  setVisible matches button.

Definition filter_widget (search_text : string) (w : widget) : widget :=
  match w with
  | QLabel t => QLabel t
  | Grid cells => Grid (map (filter_button search_text) cells)
  end.

(** [_filter_icons]: the loop runs over [icon_buttons]; the buttons in
    the grids are the same objects, so they change with them. *)
Definition _filter_icons (search_text : string) (s : library) : library :=
  let search_text := PyStr.lower search_text in
  Library (component_data s)
          (map (filter_button search_text) (icon_buttons s))
          (map (filter_widget search_text) (scroll_layout s))
          (stdout s).

End ComponentLibrary.

(** ** ComponentButton: the drag handlers *)

Module Qt.
Definition LeftButton : N := 1.
Definition RightButton : N := 2.
Definition MiddleButton : N := 4.
End Qt.

(** What the handlers read of a [QMouseEvent]: the button that caused
    the event, the buttons held down (a bit mask) and the position. *)
Record QMouseEvent : Type := MouseEvent {
  button : N;
  buttons : N;
  pos : QPoint
}.

(** The [QDrag] executed by [mouseMoveEvent]: the text of its mime data
    and whether a pixmap was attached. *)
Record QDrag : Type := Drag {
  mime_text : string;
  with_pixmap : bool
}.

Definition QPoint_sub (a b : QPoint) : QPoint :=
  Point (px a - px b) (py a - py b).

Definition manhattanLength (p : QPoint) : Z := Z.abs (px p) + Z.abs (py p).

Definition isNull (p : QPoint) : bool := (px p =? 0)%Z && (py p =? 0)%Z.

(** Truth value of [self.dragStartPosition]: [None] is false, and a
    [QPoint] is false exactly when it is null (PyQt5 gives [QPoint] a
    [__bool__] that is [not isNull()]). *)
Definition point_truthy (p : option QPoint) : bool :=
  match p with
  | None => false
  | Some q => negb (isNull q)
  end.

Definition set_dragStartPosition (p : option QPoint) (b : ComponentButton)
  : ComponentButton :=
  Button (btn_data b) (has_icon b) (prop_category b)
         (prop_component_name b) (visible b) p.

Definition mousePressEvent (self : ComponentButton) (event : QMouseEvent)
  : ComponentButton :=
  if (button event =? Qt.LeftButton)%N
  then set_dragStartPosition (Some (pos event)) self
  else self.

(** [mouseMoveEvent] leaves the button unchanged; its result is the drag
    it executes, if any. *)
Definition mouseMoveEvent (self : ComponentButton) (event : QMouseEvent)
  : option QDrag :=
  if (N.land (buttons event) Qt.LeftButton =? 0)%N then None
  else if negb (point_truthy (dragStartPosition self)) then None
  else
    match dragStartPosition self with
    | None => None
    | Some start =>
        if (manhattanLength (QPoint_sub (pos event) start) <? 10)%Z then None
        else Some (Drag (object (btn_data self)) (has_icon self))
    end.

(** Pointer events delivered to the buttons of the palette; [target] is
    the index of the receiving button in [icon_buttons].  A release has
    no handler in [ComponentButton]. *)
Inductive pointer_event : Type :=
| Press (target : nat) (event : QMouseEvent)
| Move (target : nat) (event : QMouseEvent)
| Release (target : nat) (event : QMouseEvent).

Fixpoint update_nth (i : nat) (f : ComponentButton -> ComponentButton)
         (l : list ComponentButton) : list ComponentButton :=
  match l, i with
  | [], _ => []
  | b :: l', O => f b :: l'
  | b :: l', S i' => b :: update_nth i' f l'
  end.

(** Delivery of one event: the new buttons and the drag started, with
    the index of the button that started it. *)
Definition deliver (bs : list ComponentButton) (ev : pointer_event)
  : list ComponentButton * option (nat * QDrag) :=
  match ev with
  | Press i e => (update_nth i (fun b => mousePressEvent b e) bs, None)
  | Move i e =>
      match nth_error bs i with
      | Some b =>
          match mouseMoveEvent b e with
          | Some d => (bs, Some (i, d))
          | None => (bs, None)
          end
      | None => (bs, None)
      end
  | Release _ _ => (bs, None)
  end.

(** The drags started along a sequence of events, in order. *)
Fixpoint drags (bs : list ComponentButton) (evs : list pointer_event)
  : list (nat * QDrag) :=
  match evs with
  | [] => []
  | ev :: rest =>
      match deliver bs ev with
      | (bs', Some d) => d :: drags bs' rest
      | (bs', None) => drags bs' rest
      end
  end.

(** ** Views of the panel used in the statements *)

(** The catalog as [_populate_icons] walks it: the categories in the
    order of the outer loop, each with its components in the order of
    the inner loop. *)
Definition catalog (data : list component) : list (string * list component) :=
  let g := grouped data in
  map (fun k => (k, sorted name (group_get k g))) (sorted (fun k => k) (keys g)).

(** All entries, category-major. *)
Definition all_entries (cat : list (string * list component))
  : list component :=
  flat_map snd cat.

(** Identity of an entry: (category, name). *)
Definition same_identity (c n : string) (e : component) : bool :=
  (parent e =? c)%string && (name e =? n)%string.

Definition component_eq_dec (a b : component) : {a = b} + {a <> b}.
Proof. decide equality; apply string_dec. Defined.

(** Whether the icon of an entry exists on the backing store. *)
Definition icon_exists (path_exists : string -> bool) (e : component) : bool :=
  path_exists (_get_icon_path (parent e) (name e)).

(** The category labels of a layout, in display order. *)
Fixpoint labels (ws : list widget) : list string :=
  match ws with
  | [] => []
  | QLabel t :: ws' => t :: labels ws'
  | Grid _ :: ws' => labels ws'
  end.

(** The sections of a layout: each label with the grid that follows it. *)
Fixpoint sections (ws : list widget)
  : list (string * list ComponentButton) :=
  match ws with
  | QLabel t :: Grid cells :: ws' => (t, cells) :: sections ws'
  | _ => []
  end.

(** The buttons after a sequence of pointer events. *)
Definition after (bs : list ComponentButton) (evs : list pointer_event)
  : list ComponentButton :=
  fold_left (fun bs ev => fst (deliver bs ev)) evs bs.

(** The field of a record under a header, as the loader reads it. *)
Definition field (fieldnames fs : list string) (k : string)
  : option (option string) :=
  Csv.dict_get k (Csv.dict_row fieldnames fs).

(** A record that the guard of line 112 turns away: its category is
    missing or empty, or its category is given and its name is missing
    or empty. *)
Definition rejected (fieldnames fs : list string) : bool :=
  match field fieldnames fs "parent" with
  | Some p =>
      if truthy p then
        match field fieldnames fs "name" with
        | Some n => negb (truthy n)
        | None => false
        end
      else true
  | None => false
  end.

(** [f] is [raw] without its leading and trailing white space. *)
Definition stripped_of (raw f : string) : Prop :=
  exists l r, raw = (l ++ f ++ r)%string /\
    PyStr.blank l = true /\ PyStr.blank r = true /\ PyStr.trimmed f.

(** The payload field of a row as text: [None] reads as ['']. *)
Definition payload_text (o : option string) : string :=
  match o with
  | Some x => x
  | None => EmptyString
  end.

(** The attributes before [_load_components] runs. *)
Definition fresh : library := Library [] [] [] [].

(** [component_data] after one more [append]. *)
Definition appended (s : library) (c : component) : library :=
  Library (component_data s ++ [c]) (icon_buttons s) (scroll_layout s)
          (stdout s).

(** The header of a well-formed source and the press and move events of
    a drag gesture with the left button. *)
Definition header : list string :=
  ["parent"%string; "name"%string; "object"%string].

Definition left_press (p : QPoint) : QMouseEvent :=
  MouseEvent Qt.LeftButton Qt.LeftButton p.

Definition left_move (p : QPoint) : QMouseEvent :=
  MouseEvent 0 Qt.LeftButton p.

(** ** Sample inputs *)

Definition every_icon (path : string) : bool := true.

(** Two rows of one identity. *)
Definition duplicate_rows : Csv.source :=
  Csv.Readable [Csv.Fields header;
                Csv.Fields ["A"%string; "X"%string; "v1"%string];
                Csv.Fields ["A"%string; "X"%string; "v2"%string]].

(** A valid row alone, and the same row after a record the reader
    fails on. *)
Definition valid_row_alone : Csv.source :=
  Csv.Readable [Csv.Fields header;
                Csv.Fields ["B"%string; "Y"%string; "w"%string]].

Definition garbled_then_valid : Csv.source :=
  Csv.Readable [Csv.Fields header; Csv.Garbled;
                Csv.Fields ["B"%string; "Y"%string; "w"%string]].

(** A row whose name is a single space. *)
Definition blank_name_row : Csv.source :=
  Csv.Readable [Csv.Fields header;
                Csv.Fields ["A"%string; " "%string; "v"%string]].

(** The two rows of a small palette. *)
Definition inputs_rows : Csv.source :=
  Csv.Readable [Csv.Fields header;
                Csv.Fields ["Inputs"%string; "Button"%string;
                            "widget:button"%string];
                Csv.Fields ["Inputs"%string; "Slider"%string;
                            "widget:slider"%string]].

(** A button as [_populate_icons] makes it. *)
Definition sample_button : ComponentButton :=
  Button (Component "Inputs" "Button" "widget:button") true
         "Inputs" "Button" true None.

(** ** Further views: cells of a row, cells of a grid, press history *)

(** What the loader makes of one record when the columns [parent],
    [name] and [object] stand at the positions [i], [j] and [k] of the
    header: no entry, or the entry of the three cells. *)
Definition record_entries (i j k : nat) (r : Csv.record) : list component :=
  match r with
  | Csv.Garbled => []
  | Csv.Fields fs =>
      match nth_error fs i, nth_error fs j with
      | Some p, Some n =>
          if (p =? "")%string || (n =? "")%string then []
          else [Component (PyStr.strip p) (PyStr.strip n)
                          (PyStr.strip (payload_text (nth_error fs k)))]
      | _, _ => []
      end
  end.

(** A record the reader yields without raising. *)
Definition readable (r : Csv.record) : bool :=
  match r with
  | Csv.Fields _ => true
  | Csv.Garbled => false
  end.

(** [max_cols] of [_populate_icons]. *)
Definition max_cols : nat := 5.

(** The inner loop (lines 154-170) once more, with the cell that
    [grid_layout.addWidget(button, row, col)] gives to each button: the
    column advances after a button and wraps to a new row at
    [max_cols]. *)
Fixpoint place_buttons (path_exists : string -> bool) (parent_name : string)
         (cs : list component) (row col : nat)
  : list (ComponentButton * (nat * nat)) :=
  match cs with
  | [] => []
  | c :: rest =>
      let icon_path := _get_icon_path parent_name (name c) in
      if path_exists icon_path then
        let button := new_button path_exists parent_name c icon_path in
        let col1 := col + 1 in
        if max_cols <=? col1
        then (button, (row, col))
               :: place_buttons path_exists parent_name rest (row + 1) 0
        else (button, (row, col))
               :: place_buttons path_exists parent_name rest row col1
      else place_buttons path_exists parent_name rest row col
  end.

(** The grid of one category: [row, col = 0, 0] before the loop. *)
Definition grid_cells (path_exists : string -> bool) (parent_name : string)
           (cs : list component) : list (ComponentButton * (nat * nat)) :=
  place_buttons path_exists parent_name cs 0 0.

(** The position of the last left press delivered to button [i] along
    [evs], [start] if there is none. *)
Fixpoint last_left_press (i : nat) (evs : list pointer_event)
         (start : option QPoint) : option QPoint :=
  match evs with
  | [] => start
  | Press j e :: rest =>
      if Nat.eqb j i && (button e =? Qt.LeftButton)%N
      then last_left_press i rest (Some (pos e))
      else last_left_press i rest start
  | _ :: rest => last_left_press i rest start
  end.

(** A string without path separator. *)
Fixpoint no_slash (s : string) : bool :=
  match s with
  | EmptyString => true
  | String c s' => negb (Ascii.eqb c OsPath.sep) && no_slash s'
  end.

(** The order of the buttons in [icon_buttons]: by category, then by
    name. *)
Definition button_le (a b : ComponentButton) : Prop :=
  PyStr.lt (prop_category a) (prop_category b) \/
  (prop_category a = prop_category b /\
   PyStr.le (prop_component_name a) (prop_component_name b)).

(** ** Visibility of an entry; distances on C ints *)

(** An entry is visible when one of its buttons is. *)
Definition entry_visible (s : library) (e : component) : Prop :=
  exists b, In b (icon_buttons s) /\ btn_data b = e /\ visible b = true.

(** A backing store without any icon. *)
Definition no_icon (path : string) : bool := false.

(** A C [int]: 32 bits, two's complement. *)
Definition wrap_int (z : Z) : Z := ((z + 2 ^ 31) mod 2 ^ 32 - 2 ^ 31)%Z.

(** [QPoint] subtraction and [manhattanLength] as Qt computes them, on
    C ints. *)
Definition QPoint_sub_int (a b : QPoint) : QPoint :=
  Point (wrap_int (px a - px b)) (wrap_int (py a - py b)).

Definition manhattanLength_int (p : QPoint) : Z :=
  wrap_int (wrap_int (Z.abs (px p)) + wrap_int (Z.abs (py p))).

(** Coordinates far enough from the ends of the range of a C int for a
    difference of two points and its Manhattan length to stay in it. *)
Definition int_safe (q : QPoint) : Prop :=
  (Z.abs (px q) < 2 ^ 29 /\ Z.abs (py q) < 2 ^ 29)%Z.

(** * Properties *)

(** ** Strings *)

Module PyStrFacts.
Import PyStr.

Lemma lt_trans (a b c : string) : lt a b -> lt b c -> lt a c.
Proof.
  unfold lt. revert b c.
  induction a as [|x a IH]; intros [|y b] [|z c]; simpl;
    try discriminate; auto.
  unfold Ascii.compare.
  destruct (N.compare_spec (N_of_ascii x) (N_of_ascii y)) as [E1|L1|G1];
    destruct (N.compare_spec (N_of_ascii y) (N_of_ascii z)) as [E2|L2|G2];
    try discriminate; intros H1 H2.
  - rewrite E1, E2, N.compare_refl. eauto.
  - rewrite E1. apply N.compare_lt_iff in L2. now rewrite L2.
  - rewrite <- E2. apply N.compare_lt_iff in L1. now rewrite L1.
  - assert (L : (N_of_ascii x < N_of_ascii z)%N) by lia.
    apply N.compare_lt_iff in L. now rewrite L.
Qed.

Lemma compare_refl (a : string) : String.compare a a = Eq.
Proof.
  induction a as [|x a IH]; simpl; auto.
  unfold Ascii.compare. now rewrite N.compare_refl.
Qed.

Lemma le_lt_or_eq (a b : string) : le a b <-> lt a b \/ a = b.
Proof.
  unfold le, lt. split.
  - destruct (String.compare a b) eqn:E; auto.
    + right. now apply String.compare_eq_iff.
    + now intros [].
  - intros [H | ->]; [now rewrite H | now rewrite compare_refl].
Qed.

Lemma le_refl (a : string) : le a a.
Proof. apply le_lt_or_eq. now right. Qed.

Lemma le_trans (a b c : string) : le a b -> le b c -> le a c.
Proof.
  rewrite !le_lt_or_eq. intros [H1 | ->] [H2 | ->]; auto.
  left. eapply lt_trans; eauto.
Qed.

Lemma lt_irrefl (a : string) : ~ lt a a.
Proof. unfold lt. now rewrite compare_refl. Qed.

Lemma ltb_lt (a b : string) : (a <? b)%string = true <-> lt a b.
Proof.
  unfold String.ltb, lt. destruct (String.compare a b); split;
    congruence.
Qed.

(** What the [else] branch of a comparison [b < a] knows. *)
Lemma ltb_false_le (a b : string) : (b <? a)%string = false -> le a b.
Proof.
  unfold String.ltb, le. rewrite (String.compare_antisym a b).
  destruct (String.compare b a); simpl; congruence.
Qed.

Lemma lt_le (a b : string) : lt a b -> le a b.
Proof. intros H. apply le_lt_or_eq. now left. Qed.

Lemma startswith_spec (p s : string) :
  startswith p s = true <-> exists t, s = (p ++ t)%string.
Proof.
  revert s. induction p as [|a p IH]; intros s; simpl.
  - split; eauto.
  - destruct s as [|b s].
    + split; [discriminate | now intros [t H]].
    + rewrite andb_true_iff, IH, Ascii.eqb_eq. split.
      * intros [-> [t ->]]. now exists t.
      * intros [t H]. injection H as -> ->. eauto.
Qed.

Lemma contains_spec (sub s : string) :
  contains sub s = true <-> substring_of sub s.
Proof.
  unfold substring_of. induction s as [|c s IH]; simpl.
  - rewrite orb_false_r, startswith_spec. split.
    + intros [t H]. exists EmptyString, t. exact H.
    + intros [[|x pre] [post H]]; simpl in H; [eauto | discriminate].
  - rewrite orb_true_iff, startswith_spec, IH. split.
    + intros [[t H] | [pre [post H]]].
      * exists EmptyString, t. exact H.
      * exists (String c pre), post. simpl. now rewrite H.
    + intros [[|x pre] [post H]]; simpl in H.
      * left. eauto.
      * right. injection H as _ H. eauto.
Qed.

Lemma contains_empty (s : string) : contains EmptyString s = true.
Proof. destruct s; reflexivity. Qed.

Lemma lstrip_blank (s : string) : blank s = true -> lstrip s = EmptyString.
Proof.
  induction s as [|c s IH]; simpl; auto.
  destruct (isspace c); simpl; [auto | discriminate].
Qed.

Lemma strip_blank (s : string) : blank s = true -> strip s = EmptyString.
Proof. intros H. unfold strip. now rewrite lstrip_blank. Qed.

(** [lstrip] removes a blank prefix and nothing else. *)
Lemma lstrip_spec (s : string) :
  exists l, s = (l ++ lstrip s)%string /\ blank l = true /\
    match lstrip s with
    | EmptyString => True
    | String c _ => isspace c = false
    end.
Proof.
  induction s as [|c s (l & E & B & F)]; simpl.
  - exists EmptyString. auto.
  - destruct (isspace c) eqn:Hc.
    + exists (String c l). simpl. rewrite Hc, B. repeat split; auto.
      now rewrite <- E.
    + exists EmptyString. auto.
Qed.

(** [rstrip] removes a blank suffix and nothing else. *)
Lemma rstrip_spec (s : string) :
  exists r, s = (rstrip s ++ r)%string /\ blank r = true /\
    match last_char (rstrip s) with
    | None => True
    | Some c => isspace c = false
    end.
Proof.
  induction s as [|c s (r & E & B & F)]; simpl.
  - exists EmptyString. auto.
  - destruct (rstrip s) as [|d t] eqn:R.
    + destruct (isspace c) eqn:Hc.
      * exists (String c r). simpl in *. rewrite Hc, B, E.
        repeat split; auto.
      * exists r. simpl in *. rewrite E. repeat split; auto.
    + exists r. simpl in *. rewrite E. repeat split; auto.
Qed.

Lemma rstrip_head (s : string) :
  match s with
  | EmptyString => True
  | String c _ =>
      isspace c = false ->
      match rstrip s with
      | EmptyString => False
      | String d _ => d = c
      end
  end.
Proof.
  destruct s as [|c s]; simpl; auto.
  intros Hc. destruct (rstrip s); [now rewrite Hc | reflexivity].
Qed.

(** [strip] removes a blank prefix and a blank suffix, and what is
    left has white space at neither end. *)
Lemma strip_spec (s : string) :
  exists l r, s = (l ++ strip s ++ r)%string /\
    blank l = true /\ blank r = true /\ trimmed (strip s).
Proof.
  unfold strip.
  destruct (lstrip_spec s) as (l & El & Bl & Fl).
  destruct (rstrip_spec (lstrip s)) as (r & Er & Br & Fr).
  exists l, r. repeat split; auto.
  - now rewrite <- Er.
  - intros c Hc. pose proof (rstrip_head (lstrip s)) as Hh.
    destruct (lstrip s) as [|d t]; [discriminate|].
    specialize (Hh Fl).
    destruct (rstrip (String d t)) as [|d' t']; [discriminate|].
    simpl in Hc. congruence.
  - intros c Hc. now rewrite Hc in Fr.
Qed.

End PyStrFacts.

(** ** [sorted]: ordered, a permutation, stable *)

Section SortedFacts.
Variable A : Type.
Variable key : A -> string.

Lemma insert_perm (x : A) (l : list A) :
  Permutation (insert key x l) (x :: l).
Proof.
  induction l as [|y l IH]; simpl; auto.
  destruct (key y <? key x)%string; auto.
  rewrite IH. apply perm_swap.
Qed.

Lemma sorted_perm (l : list A) : Permutation (sorted key l) l.
Proof.
  induction l as [|x l IH]; simpl; auto.
  rewrite insert_perm. now constructor.
Qed.

Lemma sorted_In (x : A) (l : list A) : In x (sorted key l) <-> In x l.
Proof.
  split; apply Permutation_in;
    [apply sorted_perm | apply Permutation_sym, sorted_perm].
Qed.

Lemma insert_Sorted (x : A) (l : list A) :
  Sorted (fun a b => PyStr.le (key a) (key b)) l ->
  Sorted (fun a b => PyStr.le (key a) (key b)) (insert key x l).
Proof.
  induction l as [|y l IH]; simpl; intros Hs.
  - repeat constructor.
  - destruct (key y <? key x)%string eqn:E.
    + inversion_clear Hs as [|? ? Hl Hhd]. constructor; auto.
      destruct l as [|z l]; simpl in *.
      * constructor. apply PyStrFacts.lt_le. now apply PyStrFacts.ltb_lt.
      * destruct (key z <? key x)%string.
        -- inversion_clear Hhd. now constructor.
        -- constructor. apply PyStrFacts.lt_le. now apply PyStrFacts.ltb_lt.
    + constructor; auto. constructor.
      now apply PyStrFacts.ltb_false_le.
Qed.

Lemma sorted_Sorted (l : list A) :
  Sorted (fun a b => PyStr.le (key a) (key b)) (sorted key l).
Proof.
  induction l as [|x l IH]; simpl; [constructor | now apply insert_Sorted].
Qed.

Lemma sorted_StronglySorted (l : list A) :
  StronglySorted (fun a b => PyStr.le (key a) (key b)) (sorted key l).
Proof.
  apply Sorted_StronglySorted; [|apply sorted_Sorted].
  intros a b c. apply PyStrFacts.le_trans.
Qed.

(** Stability: the elements of one key keep their order. *)
Lemma insert_stable (k : string) (x : A) (l : list A) :
  filter (fun a => (key a =? k)%string) (insert key x l) =
  filter (fun a => (key a =? k)%string) (x :: l).
Proof.
  induction l as [|y l IH]; simpl; auto.
  destruct (key y <? key x)%string eqn:E; simpl; auto.
  simpl in IH. rewrite IH.
  destruct (String.eqb_spec (key x) k) as [Hx|Hx]; auto.
  destruct (String.eqb_spec (key y) k) as [Hy|Hy]; auto.
  apply PyStrFacts.ltb_lt in E. rewrite Hx, Hy in E.
  now apply PyStrFacts.lt_irrefl in E.
Qed.

Lemma sorted_stable (k : string) (l : list A) :
  filter (fun a => (key a =? k)%string) (sorted key l) =
  filter (fun a => (key a =? k)%string) l.
Proof.
  induction l as [|x l IH]; simpl; auto.
  rewrite insert_stable. simpl. now rewrite IH.
Qed.

Lemma StronglySorted_filter (R : A -> A -> Prop) (p : A -> bool)
      (l : list A) :
  StronglySorted R l -> StronglySorted R (filter p l).
Proof.
  induction 1 as [|x l Hs IH Hall]; simpl; [constructor|].
  destruct (p x); auto. constructor; auto.
  rewrite Forall_forall in *. intros y Hy.
  apply filter_In in Hy. now apply Hall.
Qed.

Lemma StronglySorted_map (B : Type) (f : B -> A) (R : A -> A -> Prop)
      (l : list B) :
  StronglySorted (fun a b => R (f a) (f b)) l ->
  StronglySorted R (map f l).
Proof.
  induction 1 as [|x l Hs IH Hall]; simpl; constructor; auto.
  rewrite Forall_forall in *. intros y Hy.
  apply in_map_iff in Hy as [z [<- Hz]]. now apply Hall.
Qed.

End SortedFacts.

(** A sorted list without repetition ascends strictly. *)
Lemma sorted_keys_strict (l : list string) :
  NoDup l -> StronglySorted PyStr.lt (sorted (fun k => k) l).
Proof.
  intros Hnd.
  assert (Hnd' : NoDup (sorted (fun k => k) l)).
  { eapply Permutation_NoDup; [apply Permutation_sym, sorted_perm | exact Hnd]. }
  pose proof (sorted_StronglySorted (fun k : string => k) l) as Hs.
  induction Hs as [|x t Hs IH Hall]; [constructor|].
  inversion_clear Hnd' as [|? ? Hx Ht]. constructor; auto.
  rewrite Forall_forall in *. intros y Hy.
  destruct (proj1 (PyStrFacts.le_lt_or_eq x y) (Hall y Hy)) as [H | ->];
    [exact H | contradiction].
Qed.

(** ** The [grouped] dict *)

Section GroupedFacts.

Lemma group_get_append (k : string) (c : component) (g : groups) :
  group_get k (group_append c g) =
  group_get k g ++ (if (parent c =? k)%string then [c] else []).
Proof.
  induction g as [|[k' l] g IH]; simpl.
  - rewrite String.eqb_sym. reflexivity.
  - destruct (String.eqb_spec k' (parent c)) as [E|E]; simpl.
    + subst k'. destruct (parent c =? k)%string; auto using app_nil_r.
    + destruct (String.eqb_spec k' k) as [E'|E']; auto.
      subst k'. destruct (String.eqb_spec (parent c) k) as [E''|_];
        [congruence | now rewrite app_nil_r].
Qed.

Lemma group_get_fold (k : string) (data : list component) (g : groups) :
  group_get k (fold_left (fun g c => group_append c g) data g) =
  group_get k g ++ filter (fun c => (parent c =? k)%string) data.
Proof.
  revert g. induction data as [|c data IH]; intros g; simpl.
  - now rewrite app_nil_r.
  - rewrite IH, group_get_append, <- app_assoc.
    now destruct (parent c =? k)%string.
Qed.

Lemma group_get_grouped (k : string) (data : list component) :
  group_get k (grouped data) = filter (fun c => (parent c =? k)%string) data.
Proof. unfold grouped. now rewrite group_get_fold. Qed.

Lemma keys_append_In (k : string) (c : component) (g : groups) :
  In k (keys (group_append c g)) <-> In k (keys g) \/ k = parent c.
Proof.
  induction g as [|[k' l] g IH]; simpl.
  - intuition.
  - destruct (String.eqb_spec k' (parent c)) as [E|E]; simpl.
    + subst k'. intuition.
    + rewrite IH. intuition.
Qed.

Lemma keys_append_NoDup (c : component) (g : groups) :
  NoDup (keys g) -> NoDup (keys (group_append c g)).
Proof.
  induction g as [|[k' l] g IH]; simpl; intros Hnd.
  - repeat constructor. intros [].
  - inversion_clear Hnd as [|? ? Hk Hg].
    destruct (String.eqb_spec k' (parent c)) as [E|E]; simpl.
    + subst k'. now constructor.
    + constructor; auto. rewrite keys_append_In. intros [H|H]; auto.
Qed.

Lemma keys_fold (data : list component) (g : groups) :
  NoDup (keys g) ->
  NoDup (keys (fold_left (fun g c => group_append c g) data g)) /\
  forall k, In k (keys (fold_left (fun g c => group_append c g) data g)) <->
            In k (keys g) \/ exists c, In c data /\ parent c = k.
Proof.
  revert g. induction data as [|c data IH]; intros g Hnd; simpl.
  - split; auto. intros k. split; auto. intros [H | (c & [] & _)]; auto.
  - destruct (IH (group_append c g) (keys_append_NoDup c g Hnd)) as [H1 H2].
    split; auto. intros k. rewrite H2, keys_append_In. split.
    + intros [[H | ->] | (c' & Hc' & E)]; eauto.
    + intros [H | (c' & [<- | Hc'] & E)]; eauto.
Qed.

Lemma keys_grouped_NoDup (data : list component) :
  NoDup (keys (grouped data)).
Proof. apply keys_fold. constructor. Qed.

Lemma keys_grouped_In (k : string) (data : list component) :
  In k (keys (grouped data)) <-> exists c, In c data /\ parent c = k.
Proof.
  unfold grouped. rewrite (proj2 (keys_fold data [] (NoDup_nil _))).
  simpl. intuition.
Qed.

End GroupedFacts.

(** ** The catalog *)

Section CatalogFacts.

Lemma catalog_keys (data : list component) :
  map fst (catalog data) = sorted (fun k => k) (keys (grouped data)).
Proof. unfold catalog. rewrite map_map. simpl. apply map_id. Qed.

Lemma catalog_entries (data : list component) (k : string)
      (cs : list component) :
  In (k, cs) (catalog data) ->
  cs = sorted name (filter (fun c => (parent c =? k)%string) data).
Proof.
  unfold catalog. intros H. apply in_map_iff in H as (k' & E & _).
  injection E as -> <-. now rewrite group_get_grouped.
Qed.

Lemma catalog_parent (data : list component) (k : string)
      (cs : list component) (c : component) :
  In (k, cs) (catalog data) -> In c cs -> parent c = k.
Proof.
  intros H Hc. rewrite (catalog_entries _ _ _ H) in Hc.
  apply sorted_In, filter_In in Hc as [_ Hc].
  now apply String.eqb_eq.
Qed.

Lemma filter_flat_map (A B : Type) (p : B -> bool) (f : A -> list B)
      (l : list A) :
  filter p (flat_map f l) = flat_map (fun x => filter p (f x)) l.
Proof.
  induction l as [|x l IH]; simpl; auto.
  now rewrite filter_app, IH.
Qed.

Lemma flat_map_nil (A B : Type) (f : A -> list B) (l : list A) :
  (forall x, In x l -> f x = []) -> flat_map f l = [].
Proof.
  induction l as [|x l IH]; simpl; intros H; auto.
  rewrite (H x) by auto. apply IH. auto.
Qed.

Lemma filter_comm (A : Type) (p q : A -> bool) (l : list A) :
  filter p (filter q l) = filter q (filter p l).
Proof.
  induction l as [|x l IH]; simpl; auto.
  destruct (p x) eqn:Ep; destruct (q x) eqn:Eq; simpl;
    rewrite ?Ep, ?Eq, IH; reflexivity.
Qed.

Lemma filter_none (A : Type) (p : A -> bool) (l : list A) :
  (forall x, In x l -> p x = false) -> filter p l = [].
Proof.
  induction l as [|x l IH]; simpl; intros H; auto.
  rewrite (H x) by auto. apply IH. auto.
Qed.

Lemma filter_all (A : Type) (p : A -> bool) (l : list A) :
  (forall x, In x l -> p x = true) -> filter p l = l.
Proof.
  induction l as [|x l IH]; simpl; intros H; auto.
  rewrite (H x) by auto. f_equal. apply IH. auto.
Qed.

(** Restricted to one category, the catalog holds the components of
    that category in the order of the inner loop. *)
Lemma all_entries_category (data : list component) (k : string) :
  filter (fun c => (parent c =? k)%string) (all_entries (catalog data)) =
  sorted name (filter (fun c => (parent c =? k)%string) data).
Proof.
  unfold all_entries, catalog. rewrite flat_map_concat_map, map_map.
  rewrite <- flat_map_concat_map. simpl. rewrite filter_flat_map.
  set (g := grouped data).
  set (f := fun k' => filter (fun c => (parent c =? k)%string)
                            (sorted name (group_get k' g))).
  assert (Hother : forall k', k' <> k -> f k' = []).
  { intros k' Hk. apply filter_none. intros c Hc.
    apply sorted_In in Hc. unfold g in Hc.
    rewrite group_get_grouped in Hc. apply filter_In in Hc as [_ Hc].
    apply String.eqb_eq in Hc. apply String.eqb_neq. congruence. }
  assert (Hsame : f k = sorted name
                   (filter (fun c => (parent c =? k)%string) data)).
  { unfold f, g. rewrite group_get_grouped. apply filter_all.
    intros c Hc. apply sorted_In, filter_In in Hc. tauto. }
  assert (Hnd : NoDup (sorted (fun k => k) (keys g))).
  { eapply Permutation_NoDup;
      [apply Permutation_sym, sorted_perm | apply keys_grouped_NoDup]. }
  assert (Hin : In k (sorted (fun k => k) (keys g)) \/
                filter (fun c => (parent c =? k)%string) data = []).
  { destruct (in_dec string_dec k (keys g)) as [H|H].
    - left. now apply sorted_In.
    - right. apply filter_none. intros c Hc. apply String.eqb_neq.
      intros E. apply H, keys_grouped_In. eauto. }
  revert Hnd Hin. generalize (sorted (fun k => k) (keys g)) as ks.
  induction ks as [|k' ks IH]; simpl; intros Hnd Hin.
  - destruct Hin as [[] | ->]. reflexivity.
  - inversion_clear Hnd as [|? ? Hk' Hks].
    destruct (string_dec k' k) as [->|Hne].
    + rewrite Hsame, flat_map_nil; [apply app_nil_r|].
      intros k'' Hk''. apply Hother. intros ->. contradiction.
    + rewrite (Hother _ Hne). simpl. apply IH; auto.
      destruct Hin as [[E | H] | H]; auto. contradiction.
Qed.

(** Per identity, the catalog holds what the loader appended, in the
    order of the rows. *)
Lemma all_entries_identity (data : list component) (c n : string) :
  filter (same_identity c n) (all_entries (catalog data)) =
  filter (same_identity c n) data.
Proof.
  assert (Hsplit : forall l,
    filter (same_identity c n) l =
    filter (fun e => (name e =? n)%string)
           (filter (fun e => (parent e =? c)%string) l)).
  { induction l as [|e l IH]; simpl; auto. unfold same_identity at 1.
    destruct (parent e =? c)%string; simpl; rewrite IH; auto. }
  rewrite !Hsplit, all_entries_category. apply sorted_stable.
Qed.

End CatalogFacts.

(** ** [_populate_icons] *)

Section PopulateFacts.
Variable path_exists : string -> bool.

Lemma all_entries_perm (data : list component) :
  Permutation (all_entries (catalog data)) data.
Proof.
  apply (Permutation_count_occ component_eq_dec). intros x.
  rewrite <- !count_occ_alt. unfold count_occ'.
  set (q := fun y => if component_eq_dec y x then true else false).
  assert (Hq : forall l,
    filter q l = filter q (filter (same_identity (parent x) (name x)) l)).
  { induction l as [|e l IH]; simpl; auto.
    destruct (same_identity (parent x) (name x) e) eqn:E; simpl;
      rewrite <- IH; auto.
    unfold q at 1. destruct (component_eq_dec e x) as [->|]; auto.
    unfold same_identity in E. now rewrite !String.eqb_refl in E. }
  rewrite Hq, all_entries_identity, <- Hq. reflexivity.
Qed.

Lemma add_buttons_data (k : string) (cs : list component) :
  map btn_data (add_buttons path_exists k cs) =
  filter (fun c => path_exists (_get_icon_path k (name c))) cs.
Proof.
  induction cs as [|c cs IH]; simpl; auto.
  destruct (path_exists (_get_icon_path k (name c))); simpl; now rewrite IH.
Qed.

Lemma add_buttons_props (k : string) (cs : list component)
      (b : ComponentButton) :
  In b (add_buttons path_exists k cs) ->
  prop_category b = k /\ prop_component_name b = name (btn_data b) /\
  visible b = true /\ dragStartPosition b = None /\ In (btn_data b) cs /\
  path_exists (_get_icon_path k (name (btn_data b))) = true.
Proof.
  induction cs as [|c cs IH]; simpl; [intros []|].
  destruct (path_exists (_get_icon_path k (name c))) eqn:E.
  - intros [<- | H]; simpl; [tauto | ]. apply IH in H. tauto.
  - intros H. apply IH in H. tauto.
Qed.

Lemma fold_add_category (g : groups) (ks : list string) (s : library) :
  let t := fold_left (add_category path_exists g) ks s in
  component_data t = component_data s /\
  stdout t = stdout s /\
  icon_buttons t =
    icon_buttons s ++
    flat_map (fun k => add_buttons path_exists k
                         (sorted name (group_get k g))) ks /\
  scroll_layout t =
    scroll_layout s ++
    flat_map (fun k => [QLabel k;
                        Grid (add_buttons path_exists k
                                (sorted name (group_get k g)))]) ks.
Proof.
  revert s. induction ks as [|k ks IH]; intros s; simpl.
  - now rewrite !app_nil_r.
  - destruct (IH (add_category path_exists g s k)) as (H1 & H2 & H3 & H4).
    rewrite H1, H2, H3, H4. simpl. now rewrite <- !app_assoc.
Qed.

Lemma populate_data (s : library) :
  component_data (populate path_exists s) = component_data s.
Proof. unfold populate. now rewrite (proj1 (fold_add_category _ _ _)). Qed.

Lemma populate_buttons (s : library) :
  icon_buttons (populate path_exists s) =
  flat_map (fun kc => add_buttons path_exists (fst kc) (snd kc))
           (catalog (component_data s)).
Proof.
  unfold populate.
  destruct (fold_add_category (grouped (component_data s))
              (sorted (fun k => k) (keys (grouped (component_data s))))
              (Library (component_data s) [] [] (stdout s)))
    as (_ & _ & H & _).
  rewrite H. simpl. unfold catalog.
  rewrite !flat_map_concat_map, map_map. reflexivity.
Qed.

Lemma populate_layout (s : library) :
  scroll_layout (populate path_exists s) =
  flat_map (fun kc => [QLabel (fst kc);
                       Grid (add_buttons path_exists (fst kc) (snd kc))])
           (catalog (component_data s)).
Proof.
  unfold populate.
  destruct (fold_add_category (grouped (component_data s))
              (sorted (fun k => k) (keys (grouped (component_data s))))
              (Library (component_data s) [] [] (stdout s)))
    as (_ & _ & _ & H).
  rewrite H. simpl. unfold catalog.
  rewrite !flat_map_concat_map, map_map. reflexivity.
Qed.

Lemma layout_labels (cat : list (string * list component)) :
  labels (flat_map (fun kc => [QLabel (fst kc);
                     Grid (add_buttons path_exists (fst kc) (snd kc))]) cat)
  = map fst cat.
Proof. induction cat as [|kc cat IH]; simpl; now rewrite ?IH. Qed.

Lemma layout_sections (cat : list (string * list component)) :
  sections (flat_map (fun kc => [QLabel (fst kc);
                       Grid (add_buttons path_exists (fst kc) (snd kc))]) cat)
  = map (fun kc => (fst kc, add_buttons path_exists (fst kc) (snd kc))) cat.
Proof. induction cat as [|kc cat IH]; simpl; now rewrite ?IH. Qed.

(** The entries behind the buttons are the entries of the catalog
    whose icon exists, in the same order. *)
Lemma populate_buttons_data (s : library) :
  map btn_data (icon_buttons (populate path_exists s)) =
  filter (icon_exists path_exists) (all_entries (catalog (component_data s))).
Proof.
  rewrite populate_buttons. unfold all_entries.
  rewrite filter_flat_map, !flat_map_concat_map, concat_map, map_map.
  f_equal. apply map_ext_in. intros [k cs] Hin. simpl.
  rewrite add_buttons_data. apply filter_ext_in. intros c Hc.
  unfold icon_exists. now rewrite (catalog_parent _ _ _ c Hin Hc).
Qed.

Lemma populate_button_props (s : library) (b : ComponentButton) :
  In b (icon_buttons (populate path_exists s)) ->
  prop_category b = parent (btn_data b) /\
  prop_component_name b = name (btn_data b) /\
  visible b = true /\ dragStartPosition b = None /\
  In (btn_data b) (component_data s) /\
  icon_exists path_exists (btn_data b) = true.
Proof.
  rewrite populate_buttons. intros H.
  apply in_flat_map in H as ([k cs] & Hkc & Hb). simpl in Hb.
  apply add_buttons_props in Hb as (H1 & H2 & H3 & H4 & H5 & H6).
  pose proof (catalog_parent _ _ _ _ Hkc H5) as Hp.
  unfold icon_exists. rewrite Hp. repeat split; auto; try congruence.
  rewrite (catalog_entries _ _ _ Hkc) in H5.
  apply sorted_In, filter_In in H5. tauto.
Qed.

End PopulateFacts.

(** ** [_load_components] *)

Section LoadFacts.

Lemma load_row_rejected (fieldnames fs : list string) (s : library) :
  rejected fieldnames fs = true ->
  load_row (Csv.dict_row fieldnames fs) s = (M.Returned tt, s).
Proof.
  unfold rejected, field, load_row, M.bind, getitem.
  destruct (Csv.dict_get "parent" (Csv.dict_row fieldnames fs)) as [p|];
    [|discriminate].
  simpl. destruct (truthy p); [|reflexivity].
  destruct (Csv.dict_get "name" (Csv.dict_row fieldnames fs)) as [n|];
    [|discriminate].
  simpl. destruct (truthy n); [discriminate | reflexivity].
Qed.

(** An accepted row: what is appended. *)
Lemma load_row_accepted (fieldnames fs : list string) (p n : string)
      (o : option string) (s : library) :
  field fieldnames fs "parent" = Some (Some p) -> p <> EmptyString ->
  field fieldnames fs "name" = Some (Some n) -> n <> EmptyString ->
  field fieldnames fs "object" = Some o ->
  load_row (Csv.dict_row fieldnames fs) s =
  (M.Returned tt,
   appended s (Component (PyStr.strip p) (PyStr.strip n)
                         (PyStr.strip (payload_text o)))).
Proof.
  unfold field, load_row, M.bind, getitem. intros Hp Hp' Hn Hn' Ho.
  rewrite Hp, Hn, Ho. simpl.
  apply String.eqb_neq in Hp', Hn'. rewrite Hp', Hn'. simpl.
  destruct o as [x|]; simpl; [|reflexivity].
  destruct (String.eqb_spec x "") as [->|]; reflexivity.
Qed.

Lemma for_rows_app (fieldnames : list string) (pre post : list Csv.record)
      (s : library) :
  for_rows fieldnames (pre ++ post) s =
  match for_rows fieldnames pre s with
  | (M.Returned _, s') => for_rows fieldnames post s'
  | r => r
  end.
Proof.
  revert s. induction pre as [|[[|f fs]|] pre IH]; intros s; simpl; auto.
  unfold M.bind.
  destruct (load_row (Csv.dict_row fieldnames (f :: fs)) s) as [[[]|e] s'];
    auto.
Qed.

Lemma for_rows_rejected (fieldnames bad : list string)
      (post : list Csv.record) (s : library) :
  rejected fieldnames bad = true ->
  for_rows fieldnames (Csv.Fields bad :: post) s = for_rows fieldnames post s.
Proof.
  intros H. destruct bad as [|f fs]; simpl; auto.
  unfold M.bind. now rewrite load_row_rejected.
Qed.

Lemma load_never_raises (csv : Csv.source) (s : library) :
  fst (_load_components csv s) = M.Returned tt.
Proof.
  unfold _load_components, M.try_except, M.ret, print_error, M.modify.
  destruct (negb (source_exists csv)); simpl; auto.
  destruct (read_source csv s) as [[[]|e] s']; reflexivity.
Qed.

Lemma panel_populate (csv : Csv.source) (path_exists : string -> bool) :
  panel csv path_exists =
  populate path_exists (snd (_load_components csv fresh)).
Proof.
  unfold panel, __init__, M.bind, M.modify, _populate_icons. simpl.
  pose proof (load_never_raises csv fresh) as H. unfold fresh in *.
  destruct (_load_components csv (Library [] [] [] [])) as [[[]|e] s'];
    simpl in *; [reflexivity | discriminate].
Qed.

Lemma panel_data (csv : Csv.source) (path_exists : string -> bool) :
  component_data (panel csv path_exists) =
  component_data (snd (_load_components csv fresh)).
Proof. now rewrite panel_populate, populate_data. Qed.

End LoadFacts.

(** ** The drag handlers *)

Section DragFacts.

Lemma move_without_left (b : ComponentButton) (e : QMouseEvent) :
  N.land (buttons e) Qt.LeftButton = 0%N -> mouseMoveEvent b e = None.
Proof. unfold mouseMoveEvent. now intros ->. Qed.

Lemma move_without_press (b : ComponentButton) (e : QMouseEvent) :
  dragStartPosition b = None -> mouseMoveEvent b e = None.
Proof.
  unfold mouseMoveEvent. intros ->. simpl.
  now destruct (N.land (buttons e) Qt.LeftButton =? 0)%N.
Qed.

Lemma move_below_threshold (b : ComponentButton) (e : QMouseEvent)
      (start : QPoint) :
  dragStartPosition b = Some start ->
  (manhattanLength (QPoint_sub (pos e) start) < 10)%Z ->
  mouseMoveEvent b e = None.
Proof.
  unfold mouseMoveEvent. intros -> H. apply Z.ltb_lt in H. rewrite H.
  destruct (N.land (buttons e) Qt.LeftButton =? 0)%N; auto.
  now destruct (negb (point_truthy (Some start))).
Qed.

Lemma move_from_origin (b : ComponentButton) (e : QMouseEvent) :
  dragStartPosition b = Some (Point 0 0) -> mouseMoveEvent b e = None.
Proof.
  unfold mouseMoveEvent. intros ->. simpl.
  now destruct (N.land (buttons e) Qt.LeftButton =? 0)%N.
Qed.

Lemma move_beyond_threshold (b : ComponentButton) (e : QMouseEvent)
      (start : QPoint) :
  N.land (buttons e) Qt.LeftButton <> 0%N ->
  dragStartPosition b = Some start -> isNull start = false ->
  (10 <= manhattanLength (QPoint_sub (pos e) start))%Z ->
  mouseMoveEvent b e = Some (Drag (object (btn_data b)) (has_icon b)).
Proof.
  unfold mouseMoveEvent. intros Hl -> Hn Hd.
  apply N.eqb_neq in Hl. rewrite Hl. simpl. rewrite Hn. simpl.
  apply Z.ltb_ge in Hd. now rewrite Hd.
Qed.

(** A gesture with the left button, pressed anywhere but on the pixel
    (0, 0): no drag below ten pixels of Manhattan distance, one drag
    with the payload of the entry from ten pixels on. *)
Lemma gesture_drags (b : ComponentButton) (p q : QPoint) :
  isNull p = false ->
  drags [b] [Press 0 (left_press p); Move 0 (left_move q)] =
  if (manhattanLength (QPoint_sub q p) <? 10)%Z then []
  else [(0, Drag (object (btn_data b)) (has_icon b))].
Proof.
  intros Hp. simpl. unfold mouseMoveEvent, mousePressEvent. simpl.
  rewrite Hp. simpl.
  now destruct (manhattanLength (QPoint_sub q p) <? 10)%Z.
Qed.

(** A drag carries the payload of the button that starts it. *)
Lemma move_payload (b : ComponentButton) (e : QMouseEvent) (d : QDrag) :
  mouseMoveEvent b e = Some d ->
  d = Drag (object (btn_data b)) (has_icon b) /\
  N.land (buttons e) Qt.LeftButton <> 0%N /\
  dragStartPosition b <> None.
Proof.
  unfold mouseMoveEvent.
  destruct (N.eqb_spec (N.land (buttons e) Qt.LeftButton) 0);
    [discriminate|].
  destruct (dragStartPosition b) as [start|]; simpl; [|discriminate].
  destruct (negb (isNull start)); simpl; [|discriminate].
  destruct (manhattanLength (QPoint_sub (pos e) start) <? 10)%Z;
    [discriminate|].
  intros [= <-]. repeat split; auto. discriminate.
Qed.

Lemma press_data (b : ComponentButton) (e : QMouseEvent) :
  btn_data (mousePressEvent b e) = btn_data b.
Proof. unfold mousePressEvent. now destruct (button e =? Qt.LeftButton)%N. Qed.

Lemma nth_error_update_nth (f : ComponentButton -> ComponentButton)
      (l : list ComponentButton) (i j : nat) :
  nth_error (update_nth i f l) j =
  if Nat.eqb i j then option_map f (nth_error l j) else nth_error l j.
Proof.
  revert i j. induction l as [|b l IH]; intros [|i] [|j]; simpl; auto.
  now destruct (Nat.eqb i j).
Qed.

Lemma after_snoc (bs : list ComponentButton) (evs : list pointer_event)
      (ev : pointer_event) :
  after bs (evs ++ [ev]) = fst (deliver (after bs evs) ev).
Proof. unfold after. now rewrite fold_left_app. Qed.

Lemma deliver_move_state (bs : list ComponentButton) (i : nat)
      (e : QMouseEvent) :
  fst (deliver bs (Move i e)) = bs.
Proof.
  simpl. destruct (nth_error bs i) as [b|]; auto.
  now destruct (mouseMoveEvent b e).
Qed.

(** A recorded press position is owed to a left press on that button. *)
Lemma press_recorded (bs : list ComponentButton) (evs : list pointer_event) :
  Forall (fun b => dragStartPosition b = None) bs ->
  forall j b, nth_error (after bs evs) j = Some b ->
              dragStartPosition b <> None ->
              exists e0, In (Press j e0) evs /\ button e0 = Qt.LeftButton.
Proof.
  intros Hfresh. induction evs as [|ev evs IH] using rev_ind; intros j b Hb Hd.
  - simpl in Hb. apply nth_error_In in Hb.
    rewrite Forall_forall in Hfresh. now apply Hfresh in Hb.
  - rewrite after_snoc in Hb.
    assert (Hold : nth_error (after bs evs) j = Some b ->
                   exists e0, In (Press j e0) (evs ++ [ev]) /\
                              button e0 = Qt.LeftButton).
    { intros H. destruct (IH j b H Hd) as (e0 & Hin & He0).
      exists e0. split; auto. apply in_or_app. now left. }
    destruct ev as [i e|i e|i e].
    + simpl in Hb. rewrite nth_error_update_nth in Hb.
      destruct (Nat.eqb_spec i j) as [->|Hne]; auto.
      destruct (nth_error (after bs evs) j) as [b0|] eqn:Hb0;
        [|discriminate].
      simpl in Hb. injection Hb as <-. unfold mousePressEvent in *.
      destruct (N.eqb_spec (button e) Qt.LeftButton) as [El|El]; auto.
      exists e. split; auto. apply in_or_app. right. now left.
    + rewrite deliver_move_state in Hb. auto.
    + simpl in Hb. auto.
Qed.

Lemma after_data (bs : list ComponentButton) (evs : list pointer_event) :
  map btn_data (after bs evs) = map btn_data bs.
Proof.
  induction evs as [|ev evs IH] using rev_ind; auto.
  rewrite after_snoc, <- IH. destruct ev as [i e|i e|i e].
  - simpl. generalize (after bs evs) i. clear.
    induction l as [|b l IHl]; intros [|i]; simpl; auto.
    + now rewrite press_data.
    + now rewrite IHl.
  - now rewrite deliver_move_state.
  - reflexivity.
Qed.

Lemma deliver_move_source (bs : list ComponentButton) (i : nat)
      (e : QMouseEvent) (d : nat * QDrag) :
  snd (deliver bs (Move i e)) = Some d ->
  fst d = i /\ exists b, nth_error bs i = Some b /\
                         mouseMoveEvent b e = Some (snd d).
Proof.
  simpl. destruct (nth_error bs i) as [b|]; [|discriminate].
  destruct (mouseMoveEvent b e) as [q|] eqn:E; [|discriminate].
  simpl. intros [= <-]. simpl. eauto.
Qed.

(** Every drag of a run starts from a button of the palette and
    carries the payload of the entry of that button. *)
Lemma drags_source (evs : list pointer_event) (bs : list ComponentButton)
      (i : nat) (d : QDrag) :
  In (i, d) (drags bs evs) ->
  exists c, nth_error (map btn_data bs) i = Some c /\ mime_text d = object c.
Proof.
  revert bs. induction evs as [|ev evs IH]; intros bs; simpl; [intros []|].
  assert (Hrest : In (i, d) (drags (fst (deliver bs ev)) evs) ->
                  exists c, nth_error (map btn_data bs) i = Some c /\
                            mime_text d = object c).
  { intros H. apply IH in H.
    change (fst (deliver bs ev)) with (after bs [ev]) in H.
    now rewrite after_data in H. }
  destruct (deliver bs ev) as [bs' [d'|]] eqn:E; simpl in *; auto.
  intros [-> | H]; auto.
  destruct ev as [j e|j e|j e]; try discriminate.
  pose proof (deliver_move_source bs j e) as Hs. rewrite E in Hs.
  destruct (Hs (i, d) eq_refl) as (Hi & b & Hb & Hm). simpl in *.
  subst j. apply move_payload in Hm as (-> & _ & _).
  exists (btn_data b). split; auto. now rewrite nth_error_map, Hb.
Qed.

End DragFacts.

(** ** Worked examples *)

Section Examples.

(** Upper case sorts before lower case. *)
Example categories_case_sensitive :
  sorted (fun k => k) ["b"%string; "a"%string; "B"%string]
  = ["B"%string; "a"%string; "b"%string].
Proof. reflexivity. Qed.

Example icon_path_of_entry :
  _get_icon_path "Inputs" "Button" = "ui/assets/png/Inputs/Button.png"%string.
Proof. reflexivity. Qed.

(** A short row leaves its payload out: the entry is kept with an empty
    payload. *)
Example missing_payload_defaults :
  component_data
    (panel (Csv.Readable [Csv.Fields header;
                          Csv.Fields ["A"%string; "X"%string]]) every_icon)
  = [Component "A" "X" ""].
Proof. reflexivity. Qed.

(** The query slid shows the slider and hides the button. *)
Example query_slid :
  map (fun b => (name (btn_data b), visible b))
      (icon_buttons (_filter_icons "slid" (panel inputs_rows every_icon)))
  = [("Button"%string, false); ("Slider"%string, true)].
Proof. reflexivity. Qed.

(** Three pixels are a click, twenty pixels are a drag. *)
Example three_pixels_no_drag :
  drags [sample_button]
        [Press 0 (left_press (Point 5 5)); Move 0 (left_move (Point 8 5))]
  = [].
Proof. reflexivity. Qed.

Example twenty_pixels_one_drag :
  drags [sample_button]
        [Press 0 (left_press (Point 5 5)); Move 0 (left_move (Point 25 5))]
  = [(0, Drag "widget:button" true)].
Proof. reflexivity. Qed.

End Examples.

(** * The claims *)

Unset Implicit Arguments.

(** C1, as stated, fails: the two rows (A, X, v1) and (A, X, v2) do not
    yield exactly one entry with payload v2; both rows are in the
    catalog. *)
Lemma C1_two_rows_give_two_entries :
  ~ exists e,
      filter (same_identity "A" "X")
        (all_entries (catalog (component_data
                                 (panel duplicate_rows every_icon)))) = [e]
      /\ object e = "v2"%string.
Proof. intros [e [H _]]. vm_compute in H. discriminate. Qed.

(** C1, amended: nothing is deduplicated.  For every identity
    (category, name) the catalog holds exactly the loaded entries of that
    identity, in the order of their rows, and so does the palette for
    the entries whose icon exists; the two rows (A, X, v1) and
    (A, X, v2) yield two entries, v1 before v2. *)
Theorem C1_duplicates_kept_in_row_order :
  forall (path_exists : string -> bool) (s : library) (c n : string),
    filter (same_identity c n) (all_entries (catalog (component_data s))) =
    filter (same_identity c n) (component_data s)
    /\ filter (same_identity c n)
         (map btn_data (icon_buttons (populate path_exists s))) =
       filter (icon_exists path_exists)
         (filter (same_identity c n) (component_data s))
    /\ all_entries (catalog (component_data (panel duplicate_rows path_exists)))
       = [Component "A" "X" "v1"; Component "A" "X" "v2"].
Proof.
  intros path_exists s c n. split; [apply all_entries_identity|]. split.
  - rewrite populate_buttons_data, filter_comm, all_entries_identity.
    reflexivity.
  - rewrite panel_data. reflexivity.
Qed.

(** C2, as stated, fails: the valid row (B, Y, w) is loaded when it
    stands alone, and goes unloaded when a record the reader fails on
    precedes it. *)
Lemma C2_garbled_record_ends_the_load :
  component_data (panel valid_row_alone every_icon) = [Component "B" "Y" "w"]
  /\ component_data (panel garbled_then_valid every_icon) = [].
Proof. split; reflexivity. Qed.

(** C2, amended: a record turned away by the guard (category or name
    missing or empty) is skipped and the load goes on as if the record
    were not there, so every later row is still processed; a record at
    which the reader itself raises ends the load: what was appended
    before it is kept, and no later record is loaded. *)
Theorem C2_rejected_row_skipped_reader_failure_stops :
  forall (fieldnames bad : list string) (pre post : list Csv.record)
         (s : library),
    rejected fieldnames bad = true ->
    _load_components
      (Csv.Readable (Csv.Fields fieldnames :: pre ++ Csv.Fields bad :: post)) s
    = _load_components (Csv.Readable (Csv.Fields fieldnames :: pre ++ post)) s
    /\ component_data (snd (_load_components
         (Csv.Readable (Csv.Fields fieldnames :: pre ++ Csv.Garbled :: post)) s))
       = component_data (snd (_load_components
           (Csv.Readable (Csv.Fields fieldnames :: pre)) s)).
Proof.
  intros fieldnames bad pre post s Hbad.
  unfold _load_components, M.try_except, print_error, M.modify. simpl.
  rewrite !for_rows_app. split.
  - destruct (for_rows fieldnames pre s) as [[[]|e] s']; auto.
    now rewrite for_rows_rejected.
  - destruct (for_rows fieldnames pre s) as [[[]|e] s']; reflexivity.
Qed.

(** A row that leaves the name out, before a valid row. *)
Lemma C2_short_row_witness :
  rejected header ["A"%string] = true /\
  _load_components
    (Csv.Readable (Csv.Fields header ::
       [] ++ Csv.Fields ["A"%string]
          :: [Csv.Fields ["B"%string; "Y"%string; "w"%string]])) fresh
  = _load_components
      (Csv.Readable (Csv.Fields header ::
         [] ++ [Csv.Fields ["B"%string; "Y"%string; "w"%string]])) fresh.
Proof.
  split; [reflexivity|].
  apply (C2_rejected_row_skipped_reader_failure_stops
           header ["A"%string] []
           [Csv.Fields ["B"%string; "Y"%string; "w"%string]] fresh).
  reflexivity.
Defined.

(** C3: in the layout built by [_populate_icons] the category labels
    ascend strictly in the case-sensitive order of strings (so no
    category is repeated), they are the categories of the loaded
    entries, and the buttons of each category carry that category and
    stand in ascending order of name. *)
Theorem C3_categories_and_entries_sorted :
  forall (path_exists : string -> bool) (s : library),
    StronglySorted PyStr.lt (labels (scroll_layout (populate path_exists s)))
    /\ NoDup (labels (scroll_layout (populate path_exists s)))
    /\ (forall k, In k (labels (scroll_layout (populate path_exists s))) <->
                  exists c, In c (component_data s) /\ parent c = k)
    /\ Forall (fun sec =>
                 Forall (fun b => prop_category b = fst sec) (snd sec) /\
                 StronglySorted PyStr.le
                   (map (fun b => name (btn_data b)) (snd sec)))
              (sections (scroll_layout (populate path_exists s)))
    /\ Forall (fun kc => StronglySorted PyStr.le (map name (snd kc)))
              (catalog (component_data s)).
Proof.
  intros path_exists s.
  rewrite populate_layout, layout_labels, layout_sections, catalog_keys.
  pose proof (keys_grouped_NoDup (component_data s)) as Hnd.
  repeat split.
  - now apply sorted_keys_strict.
  - eapply Permutation_NoDup; [apply Permutation_sym, sorted_perm | exact Hnd].
  - intros H. now apply sorted_In, keys_grouped_In in H.
  - intros H. now apply sorted_In, keys_grouped_In.
  - apply Forall_forall. intros sec Hsec.
    apply in_map_iff in Hsec as ([k cs] & <- & Hkc). simpl. split.
    + apply Forall_forall. intros b Hb.
      now apply add_buttons_props in Hb.
    + rewrite <- map_map, add_buttons_data.
      apply StronglySorted_map, StronglySorted_filter.
      rewrite (catalog_entries _ _ _ Hkc). apply sorted_StronglySorted.
  - apply Forall_forall. intros [k cs] Hkc. simpl.
    apply StronglySorted_map.
    rewrite (catalog_entries _ _ _ Hkc). apply sorted_StronglySorted.
Qed.

(** What [_filter_icons] does to the buttons: it keeps every button and
    its entry, and leaves a button visible exactly when the lower-cased
    query is a substring of the lower-cased name or of the lower-cased
    category stored on the button, which for the buttons of the panel
    are the name and the category of the entry; the empty query makes
    every button visible, and the queries BTN and btn give the same
    result. *)
Lemma filter_icons_on_buttons :
  forall (search_text : string) (s : library),
    Forall2 (fun b b' =>
               btn_data b' = btn_data b /\
               (visible b' = true <->
                PyStr.substring_of (PyStr.lower search_text)
                                   (PyStr.lower (prop_component_name b)) \/
                PyStr.substring_of (PyStr.lower search_text)
                                   (PyStr.lower (prop_category b))))
            (icon_buttons s) (icon_buttons (_filter_icons search_text s))
    /\ (forall csv path_exists,
          Forall (fun b => prop_component_name b = name (btn_data b) /\
                           prop_category b = parent (btn_data b))
                 (icon_buttons (panel csv path_exists)))
    /\ Forall (fun b => visible b = true) (icon_buttons (_filter_icons "" s))
    /\ _filter_icons "BTN" s = _filter_icons "btn" s.
Proof.
  intros search_text s. repeat split.
  - unfold _filter_icons. simpl.
    induction (icon_buttons s) as [|b l IH]; simpl; constructor; auto.
    split; [reflexivity|]. unfold filter_button. simpl.
    now rewrite orb_true_iff, !PyStrFacts.contains_spec.
  - intros csv path_exists. apply Forall_forall. intros b Hb.
    rewrite panel_populate in Hb. apply populate_button_props in Hb. tauto.
  - unfold _filter_icons. simpl. apply Forall_forall. intros b Hb.
    apply in_map_iff in Hb as (b0 & <- & _). unfold filter_button. simpl.
    now rewrite PyStrFacts.contains_empty.
Qed.

Lemma entry_with_icon_has_button (path_exists : string -> bool) (s : library)
      (e : component) :
  In e (component_data s) -> icon_exists path_exists e = true ->
  exists b, In b (icon_buttons (populate path_exists s)) /\ btn_data b = e.
Proof.
  intros Hin Hex.
  assert (H : In e (map btn_data (icon_buttons (populate path_exists s)))).
  { rewrite populate_buttons_data. apply filter_In. split; auto.
    eapply Permutation_in;
      [apply Permutation_sym, all_entries_perm | exact Hin]. }
  apply in_map_iff in H as (b & Hb & Hin'). eauto.
Qed.

Lemma entry_visible_filter (csv : Csv.source) (path_exists : string -> bool)
      (q : string) (e : component) :
  In e (component_data (panel csv path_exists)) ->
  (entry_visible (_filter_icons q (panel csv path_exists)) e <->
   icon_exists path_exists e = true /\
   (PyStr.substring_of (PyStr.lower q) (PyStr.lower (name e)) \/
    PyStr.substring_of (PyStr.lower q) (PyStr.lower (parent e)))).
Proof.
  intros Hin. unfold entry_visible, _filter_icons. cbn [icon_buttons].
  rewrite <- !PyStrFacts.contains_spec, <- orb_true_iff. split.
  - intros (b & Hb & He & Hv).
    apply in_map_iff in Hb as (b0 & <- & Hb0).
    rewrite panel_populate in Hb0.
    apply populate_button_props in Hb0 as (Hc & Hn & _ & _ & _ & Hex).
    unfold filter_button in *. cbn [btn_data visible setVisible] in *.
    subst e. rewrite <- Hc, <- Hn. auto.
  - intros [Hex Hm]. rewrite panel_populate in *. rewrite populate_data in Hin.
    destruct (entry_with_icon_has_button path_exists _ e Hin Hex)
      as (b0 & Hb0 & He).
    exists (filter_button (PyStr.lower q) b0). split; [now apply in_map|].
    apply populate_button_props in Hb0 as (Hc & Hn & _).
    unfold filter_button. cbn [btn_data visible setVisible].
    rewrite Hc, Hn, He. auto.
Qed.

(** C4, as stated, fails: with no icon on the backing store, the entry
    (Inputs, Button) matches the empty query and is not visible, for it
    has no button. *)
Lemma C4_iconless_entry_matches_and_stays_hidden :
  In (Component "Inputs" "Button" "widget:button")
     (component_data (panel inputs_rows no_icon))
  /\ ~ (entry_visible (_filter_icons "" (panel inputs_rows no_icon))
                      (Component "Inputs" "Button" "widget:button")
        <-> (PyStr.substring_of (PyStr.lower "") (PyStr.lower "Button") \/
             PyStr.substring_of (PyStr.lower "") (PyStr.lower "Inputs"))).
Proof.
  split; [left; reflexivity|].
  intros [_ H]. destruct H as (b & Hb & _).
  - left. exists EmptyString, "button"%string. reflexivity.
  - exact Hb.
Qed.

(** C4, amended: an entry of the panel is visible after filtering
    exactly when its icon exists and the lower-cased query is a
    substring of its lower-cased name or of its lower-cased category;
    an entry whose icon does not exist has no button and is visible
    under no query.  So the empty query makes visible exactly the
    entries whose icon exists, the queries BTN and btn show the same
    entries, and [_filter_icons] keeps every button and sets its
    visibility by that rule. *)
Theorem C4_entry_visible_iff_icon_and_match :
  forall (csv : Csv.source) (path_exists : string -> bool)
         (search_text : string) (e : component),
    In e (component_data (panel csv path_exists)) ->
    (entry_visible (_filter_icons search_text (panel csv path_exists)) e <->
     icon_exists path_exists e = true /\
     (PyStr.substring_of (PyStr.lower search_text) (PyStr.lower (name e)) \/
      PyStr.substring_of (PyStr.lower search_text) (PyStr.lower (parent e))))
    /\ (entry_visible (_filter_icons "" (panel csv path_exists)) e <->
        icon_exists path_exists e = true)
    /\ (entry_visible (_filter_icons "BTN" (panel csv path_exists)) e <->
        entry_visible (_filter_icons "btn" (panel csv path_exists)) e)
    /\ Forall2 (fun b b' =>
                  btn_data b' = btn_data b /\
                  (visible b' = true <->
                   PyStr.substring_of (PyStr.lower search_text)
                                      (PyStr.lower (name (btn_data b))) \/
                   PyStr.substring_of (PyStr.lower search_text)
                                      (PyStr.lower (parent (btn_data b)))))
               (icon_buttons (panel csv path_exists))
               (icon_buttons (_filter_icons search_text
                                (panel csv path_exists))).
Proof.
  intros csv path_exists search_text e Hin. split; [|split; [|split]].
  - now apply entry_visible_filter.
  - rewrite (entry_visible_filter csv path_exists "" e Hin). split.
    + tauto.
    + intros Hex. split; auto. left.
      exists EmptyString, (PyStr.lower (name e)). reflexivity.
  - rewrite (entry_visible_filter csv path_exists "BTN" e Hin),
            (entry_visible_filter csv path_exists "btn" e Hin).
    reflexivity.
  - destruct (filter_icons_on_buttons search_text (panel csv path_exists))
      as (HF & Hprops & _).
    specialize (Hprops csv path_exists). rewrite Forall_forall in Hprops.
    revert HF Hprops.
    generalize (icon_buttons (_filter_icons search_text
                                (panel csv path_exists))).
    induction (icon_buttons (panel csv path_exists)) as [|b l IH];
      intros l' HF Hprops; inversion HF as [|? b' ? l2 [Hd Hv] HF']; subst;
      constructor.
    + destruct (Hprops b (or_introl eq_refl)) as [Hn Hc].
      rewrite <- Hn, <- Hc. auto.
    + apply IH; auto. intros x Hx. apply Hprops. now right.
Qed.

(** The slider under the query slid, every icon in place. *)
Lemma C4_slider_witness :
  entry_visible (_filter_icons "slid" (panel inputs_rows every_icon))
                (Component "Inputs" "Slider" "widget:slider").
Proof.
  refine (proj2 (proj1 (C4_entry_visible_iff_icon_and_match
                          inputs_rows every_icon "slid"
                          (Component "Inputs" "Slider" "widget:slider") _)) _).
  - right. left. reflexivity.
  - split; [reflexivity|]. left.
    exists EmptyString, "er"%string. reflexivity.
Defined.

(** C5 fails on the code: the row (A, " ", v) passes the guard, because
    the guard looks at the raw field, and is stored after stripping as
    an entry whose name is empty. *)
Theorem C5_blank_name_gives_nameless_entry :
  rejected header ["A"%string; " "%string; "v"%string] = false
  /\ component_data (panel blank_name_row every_icon) = [Component "A" "" "v"]
  /\ exists e,
       In e (all_entries (catalog (component_data
                                     (panel blank_name_row every_icon))))
       /\ name e = EmptyString.
Proof.
  split; [reflexivity|]. split; [reflexivity|].
  exists (Component "A" "" "v"). split; [|reflexivity].
  rewrite panel_data. simpl. now left.
Qed.

(** C6: the entries behind the buttons are, up to order, the loaded
    entries whose icon exists, one button for each; the grids hold the
    same buttons; no button stands for an identity whose icon is absent;
    and every drag of a run of pointer events starts from a button of an
    entry whose icon exists, with that entry's payload. *)
Theorem C6_iconless_entries_omitted :
  forall (path_exists : string -> bool) (s : library),
    Permutation (map btn_data (icon_buttons (populate path_exists s)))
                (filter (icon_exists path_exists) (component_data s))
    /\ flat_map snd (sections (scroll_layout (populate path_exists s)))
       = icon_buttons (populate path_exists s)
    /\ (forall c, icon_exists path_exists c = false ->
          forall b, In b (icon_buttons (populate path_exists s)) ->
                    ~ (prop_category b = parent c /\
                       prop_component_name b = name c))
    /\ (forall evs i d,
          In (i, d) (drags (icon_buttons (populate path_exists s)) evs) ->
          exists c, In c (component_data s) /\
                    icon_exists path_exists c = true /\
                    mime_text d = object c).
Proof.
  intros path_exists s. repeat split.
  - rewrite populate_buttons_data.
    assert (Hp : forall (p : component -> bool) l1 l2,
               Permutation l1 l2 -> Permutation (filter p l1) (filter p l2)).
    { induction 1; simpl; auto.
      - destruct (p x); auto.
      - destruct (p x), (p y); auto. apply perm_swap.
      - eapply perm_trans; eauto. }
    apply Hp, all_entries_perm.
  - rewrite populate_layout, layout_sections, populate_buttons.
    rewrite !flat_map_concat_map, map_map. reflexivity.
  - intros c Hc b Hb [H1 H2].
    apply populate_button_props in Hb as (P1 & P2 & _ & _ & _ & P6).
    unfold icon_exists in *. rewrite <- P1, <- P2, H1, H2 in P6. congruence.
  - intros evs i d Hd. apply drags_source in Hd as (c & Hc & Hm).
    apply nth_error_In, in_map_iff in Hc as (b & <- & Hb).
    apply populate_button_props in Hb as (_ & _ & _ & _ & P5 & P6). eauto.
Qed.

(** C7 fails on the code: a left press on the pixel (0, 0) of a button
    records a null [QPoint], which line 45 takes for no press at all, so
    no move of that gesture starts a drag, however far it goes; a move
    of 20 pixels is an instance. *)
Theorem C7_press_at_origin_starts_no_drag :
  forall (b : ComponentButton) (e : QMouseEvent),
    mouseMoveEvent (mousePressEvent b (left_press (Point 0 0))) e = None
    /\ drags [b] [Press 0 (left_press (Point 0 0));
                  Move 0 (left_move (Point 20 0))] = [].
Proof.
  intros b e. split.
  - apply move_from_origin. reflexivity.
  - reflexivity.
Qed.

(** C8: when the record source is missing or cannot be opened,
    [_load_components] returns normally and leaves [component_data] as
    it was, so the panel is built with no entry, no button and no
    label. *)
Theorem C8_unavailable_source_loads_nothing :
  forall (csv : Csv.source) (s : library),
    csv = Csv.Missing \/ csv = Csv.Unopenable ->
    fst (_load_components csv s) = M.Returned tt
    /\ component_data (snd (_load_components csv s)) = component_data s
    /\ forall path_exists,
         component_data (panel csv path_exists) = [] /\
         icon_buttons (panel csv path_exists) = [] /\
         scroll_layout (panel csv path_exists) = [].
Proof.
  intros csv s H. split; [apply load_never_raises|].
  destruct H as [-> | ->]; split; try reflexivity;
    intros path_exists; repeat split; reflexivity.
Qed.

(** A source that exists and cannot be opened. *)
Lemma C8_unopenable_source_witness :
  component_data (snd (_load_components Csv.Unopenable fresh)) = [].
Proof.
  exact (proj1 (proj2 (C8_unavailable_source_loads_nothing
                         Csv.Unopenable fresh (or_intror eq_refl)))).
Defined.

(** C9: a row whose category and name are given and not empty is
    accepted whatever they contain, and the entry stored for it holds
    the three fields without their leading and trailing white space (a
    missing payload reading as the empty string); so when the name is
    all white space the stored name is the empty string. *)
Theorem C9_guard_precedes_strip :
  forall (fieldnames fs : list string) (p n : string) (o : option string)
         (s : library),
    field fieldnames fs "parent" = Some (Some p) -> p <> EmptyString ->
    field fieldnames fs "name" = Some (Some n) -> n <> EmptyString ->
    field fieldnames fs "object" = Some o ->
    rejected fieldnames fs = false
    /\ exists e,
         load_row (Csv.dict_row fieldnames fs) s = (M.Returned tt, appended s e)
         /\ stripped_of p (parent e) /\ stripped_of n (name e)
         /\ stripped_of (payload_text o) (object e)
         /\ (PyStr.blank n = true -> name e = EmptyString).
Proof.
  intros fieldnames fs p n o s Hp Hp' Hn Hn' Ho. split.
  - unfold rejected. rewrite Hp, Hn. simpl.
    apply String.eqb_neq in Hp', Hn'. now rewrite Hp', Hn'.
  - eexists. split; [now apply (@load_row_accepted fieldnames fs p n o)|].
    simpl. repeat split; try apply PyStrFacts.strip_spec.
    apply PyStrFacts.strip_blank.
Qed.

(** The row (A, " ", v). *)
Lemma C9_single_space_name_witness :
  exists e,
    load_row (Csv.dict_row header ["A"%string; " "%string; "v"%string]) fresh
    = (M.Returned tt, appended fresh e)
    /\ name e = EmptyString.
Proof.
  destruct (C9_guard_precedes_strip header
              ["A"%string; " "%string; "v"%string] "A" " "
              (Some "v"%string) fresh)
    as (_ & e & He & _ & _ & _ & Hblank);
    try reflexivity; try discriminate.
  exists e. split; [exact He | apply Hblank; reflexivity].
Defined.

(** C10: on buttons that start without a press position, a move that
    starts a drag does so on the button it is delivered to, with the
    left button held, and after a left press delivered to that same
    button; and [mouseMoveEvent] starts nothing when the left button is
    not held or when no press position is recorded. *)
Theorem C10_drag_needs_left_press :
  forall (bs : list ComponentButton) (pre : list pointer_event) (i : nat)
         (e : QMouseEvent) (d : nat * QDrag),
    Forall (fun b => dragStartPosition b = None) bs ->
    snd (deliver (after bs pre) (Move i e)) = Some d ->
    fst d = i
    /\ N.land (buttons e) Qt.LeftButton <> 0%N
    /\ (exists e0, In (Press i e0) pre /\ button e0 = Qt.LeftButton)
    /\ (forall b e',
          N.land (buttons e') Qt.LeftButton = 0%N \/ dragStartPosition b = None ->
          mouseMoveEvent b e' = None).
Proof.
  intros bs pre i e d Hfresh Hd.
  apply deliver_move_source in Hd as (Hi & b & Hb & Hm).
  apply move_payload in Hm as (_ & Hl & Hs).
  repeat split; auto.
  - eapply press_recorded; eauto.
  - intros b' e' [H | H];
      [now apply move_without_left | now apply move_without_press].
Qed.

(** A left press at (5, 5), then a move to (30, 5). *)
Lemma C10_press_then_move_witness :
  exists e0,
    In (Press 0 e0) [Press 0 (left_press (Point 5 5))] /\
    button e0 = Qt.LeftButton.
Proof.
  refine (proj1 (proj2 (proj2
    (C10_drag_needs_left_press
       [Button (Component "A" "X" "v") true "A" "X" true None]
       [Press 0 (left_press (Point 5 5))] 0 (left_move (Point 30 5))
       (0, Drag "v" true) _ _)))).
  - repeat constructor.
  - reflexivity.
Defined.

(** * Further properties of the code *)

(** ** Rows of the [DictReader] *)

Section RowFacts.

Lemma dict_get_set (k k' : string) (v : option string) (d : Csv.row) :
  Csv.dict_get k (Csv.dict_set k' v d) =
  if (k' =? k)%string then Some v else Csv.dict_get k d.
Proof.
  induction d as [|[k0 v0] d IH]; simpl.
  - reflexivity.
  - destruct (String.eqb_spec k0 k') as [E|E]; simpl.
    + subst k0. now destruct (k' =? k)%string.
    + destruct (String.eqb_spec k0 k) as [E'|E'].
      * subst k0. destruct (String.eqb_spec k' k); congruence.
      * exact IH.
Qed.

Lemma dict_get_rest (k : string) (ks : list string) (d : Csv.row) :
  Csv.dict_get k (fold_left (fun d k' => Csv.dict_set k' None d) ks d) =
  if in_dec string_dec k ks then Some None else Csv.dict_get k d.
Proof.
  revert d. induction ks as [|k' ks IH]; intros d; simpl; auto.
  rewrite IH, dict_get_set.
  destruct (in_dec string_dec k ks) as [H|H];
    destruct (string_dec k' k) as [E|E]; auto.
  - subst k'. now rewrite String.eqb_refl.
  - apply String.eqb_neq in E. now rewrite E.
Qed.

Lemma dict_get_zip_other (k : string) (kvs : list (string * string))
      (d : Csv.row) :
  ~ In k (map fst kvs) ->
  Csv.dict_get k
    (fold_left (fun d kv => Csv.dict_set (fst kv) (Some (snd kv)) d) kvs d)
  = Csv.dict_get k d.
Proof.
  revert d. induction kvs as [|[k' v'] kvs IH]; intros d H; simpl; auto.
  simpl in H. rewrite IH, dict_get_set by tauto.
  destruct (String.eqb_spec k' k); [tauto | reflexivity].
Qed.

Lemma in_combine_fst (fieldnames fs : list string) (k : string) :
  In k (map fst (combine fieldnames fs)) -> In k fieldnames.
Proof.
  revert fs. induction fieldnames as [|f fn IH]; intros [|v fs]; simpl; auto.
  - intros [].
  - intros [H|H]; eauto.
Qed.

Lemma in_skipn (n : nat) (l : list string) (k : string) :
  In k (skipn n l) -> In k l.
Proof.
  revert l. induction n as [|n IH]; intros [|x l]; simpl; auto.
Qed.

Lemma field_fold_nth (fieldnames fs : list string) (i : nat) (k : string)
      (d : Csv.row) :
  NoDup fieldnames -> nth_error fieldnames i = Some k ->
  Csv.dict_get k
    (fold_left (fun d k' => Csv.dict_set k' None d)
       (skipn (List.length fs) fieldnames)
       (fold_left (fun d kv => Csv.dict_set (fst kv) (Some (snd kv)) d)
          (combine fieldnames fs) d))
  = Some (nth_error fs i).
Proof.
  revert fs i d. induction fieldnames as [|f fn IH]; intros fs i d Hnd Hi.
  - destruct i; discriminate.
  - inversion_clear Hnd as [|? ? Hf Hfn]. destruct fs as [|v fs].
    + simpl combine. simpl fold_left at 2. simpl List.length. simpl skipn.
      rewrite dict_get_rest.
      destruct (in_dec string_dec k (f :: fn)) as [_|H].
      * now destruct i.
      * exfalso. apply H. eapply nth_error_In; eauto.
    + simpl. destruct i as [|i]; simpl in *.
      * injection Hi as ->. rewrite dict_get_rest.
        destruct (in_dec string_dec k (skipn (List.length fs) fn)) as [H|_].
        -- exfalso. apply Hf. eapply in_skipn; eauto.
        -- rewrite dict_get_zip_other, dict_get_set, String.eqb_refl; auto.
           intros H. apply Hf. eapply in_combine_fst; eauto.
      * now apply IH.
Qed.

(** Under a header without repeated names, the value of a column in a
    row is the cell at the position of the column, [None] when the row
    is too short to have it. *)
Lemma field_nth (fieldnames fs : list string) (i : nat) (k : string) :
  NoDup fieldnames -> nth_error fieldnames i = Some k ->
  field fieldnames fs k = Some (nth_error fs i).
Proof. intros. unfold field, Csv.dict_row. now apply field_fold_nth. Qed.

Lemma field_fold_absent (fieldnames fs : list string) (k : string)
      (d : Csv.row) :
  ~ In k fieldnames -> Csv.dict_get k d = None ->
  Csv.dict_get k
    (fold_left (fun d k' => Csv.dict_set k' None d)
       (skipn (List.length fs) fieldnames)
       (fold_left (fun d kv => Csv.dict_set (fst kv) (Some (snd kv)) d)
          (combine fieldnames fs) d))
  = None.
Proof.
  intros Hk Hd. rewrite dict_get_rest.
  destruct (in_dec string_dec k (skipn (List.length fs) fieldnames)) as [H|_].
  - exfalso. apply Hk. eapply in_skipn; eauto.
  - rewrite dict_get_zip_other; auto.
    intros H. apply Hk. eapply in_combine_fst; eauto.
Qed.

(** A column that the header does not name is in no row. *)
Lemma field_absent (fieldnames fs : list string) (k : string) :
  ~ In k fieldnames -> field fieldnames fs k = None.
Proof. intros. unfold field, Csv.dict_row. now apply field_fold_absent. Qed.

End RowFacts.

(** ** More on [_load_components] *)

Section LoadMore.

(** One pass of the loop body either leaves the attributes alone or
    appends the stripped fields of an accepted row. *)
Lemma load_row_effect (r : Csv.row) (s : library) :
  snd (load_row r s) = s \/
  exists p n o,
    p <> EmptyString /\ n <> EmptyString /\
    Csv.dict_get "parent" r = Some (Some p) /\
    Csv.dict_get "name" r = Some (Some n) /\
    Csv.dict_get "object" r = Some o /\
    load_row r s =
    (M.Returned tt,
     appended s (Component (PyStr.strip p) (PyStr.strip n)
                           (PyStr.strip (payload_text o)))).
Proof.
  unfold load_row, M.bind, getitem.
  destruct (Csv.dict_get "parent" r) as [[p|]|] eqn:Hp; simpl; auto.
  destruct (String.eqb_spec p "") as [->|Hp']; simpl; auto.
  destruct (Csv.dict_get "name" r) as [[n|]|] eqn:Hn; simpl; auto.
  destruct (String.eqb_spec n "") as [->|Hn']; simpl; auto.
  destruct (Csv.dict_get "object" r) as [o|] eqn:Ho; simpl; auto.
  right. exists p, n, o. repeat split; auto.
  destruct o as [x|]; simpl; [|reflexivity].
  destruct (String.eqb_spec x "") as [->|]; reflexivity.
Qed.

Lemma load_row_missing_column (r : Csv.row) (s : library) :
  Csv.dict_get "parent" r = None \/ Csv.dict_get "name" r = None \/
  Csv.dict_get "object" r = None ->
  snd (load_row r s) = s.
Proof.
  intros H. destruct (load_row_effect r s) as [E | (p & n & o & _ & _ & Hp & Hn & Ho & _)];
    auto.
  destruct H as [H | [H | H]]; congruence.
Qed.

(** What a stored entry looks like and how many there can be. *)
Lemma for_rows_added (fieldnames : list string) (recs : list Csv.record)
      (s : library) :
  exists added,
    snd (for_rows fieldnames recs s) =
      Library (component_data s ++ added) (icon_buttons s)
              (scroll_layout s) (stdout s)
    /\ List.length added <= List.length recs
    /\ Forall (fun e => PyStr.trimmed (parent e) /\ PyStr.trimmed (name e) /\
                        PyStr.trimmed (object e)) added.
Proof.
  revert s. induction recs as [|[fs|] recs IH]; intros s.
  - exists []. simpl. rewrite app_nil_r. destruct s; auto.
  - destruct fs as [|f fs].
    + destruct (IH s) as (added & E & L & T). exists added. simpl in *.
      repeat split; auto.
    + simpl. unfold M.bind.
      destruct (load_row_effect (Csv.dict_row fieldnames (f :: fs)) s)
        as [E | (p & n & o & _ & _ & _ & _ & _ & E)].
      * destruct (load_row (Csv.dict_row fieldnames (f :: fs)) s)
          as [[[]|e] s'] eqn:R; simpl in E; subst s'.
        -- destruct (IH s) as (added & E & L & T). exists added.
           repeat split; auto.
        -- exists []. simpl. rewrite app_nil_r. destruct s; repeat split; auto.
           simpl. lia.
      * rewrite E. destruct (IH (appended s
            (Component (PyStr.strip p) (PyStr.strip n)
                       (PyStr.strip (payload_text o))))) as (added & E' & L & T).
        exists (Component (PyStr.strip p) (PyStr.strip n)
                          (PyStr.strip (payload_text o)) :: added).
        rewrite E'. simpl. rewrite <- app_assoc. repeat split; auto.
        -- lia.
        -- constructor; auto. simpl.
           destruct (PyStrFacts.strip_spec p) as (? & ? & _ & _ & _ & Tp).
           destruct (PyStrFacts.strip_spec n) as (? & ? & _ & _ & _ & Tn).
           destruct (PyStrFacts.strip_spec (payload_text o))
             as (? & ? & _ & _ & _ & To).
           auto.
  - exists []. simpl. rewrite app_nil_r. destruct s; repeat split; auto.
    simpl. lia.
Qed.

Lemma for_rows_missing_column (fieldnames : list string)
      (recs : list Csv.record) (s : library) :
  ~ (In "parent"%string fieldnames /\ In "name"%string fieldnames /\
     In "object"%string fieldnames) ->
  snd (for_rows fieldnames recs s) = s.
Proof.
  intros H. induction recs as [|[[|f fs]|] recs IH]; simpl; auto.
  unfold M.bind.
  assert (E : snd (load_row (Csv.dict_row fieldnames (f :: fs)) s) = s).
  { apply load_row_missing_column.
    destruct (in_dec string_dec "parent"%string fieldnames) as [Hp|Hp];
      [|left; now apply field_absent].
    destruct (in_dec string_dec "name"%string fieldnames) as [Hn|Hn];
      [|right; left; now apply field_absent].
    destruct (in_dec string_dec "object"%string fieldnames) as [Ho|Ho];
      [tauto | right; right; now apply field_absent]. }
  destruct (load_row (Csv.dict_row fieldnames (f :: fs)) s) as [[[]|e] s'];
    simpl in E; subst s'; auto.
Qed.

Lemma for_rows_cells (fieldnames : list string) (i j k : nat)
      (recs : list Csv.record) (s : library) :
  NoDup fieldnames ->
  nth_error fieldnames i = Some "parent"%string ->
  nth_error fieldnames j = Some "name"%string ->
  nth_error fieldnames k = Some "object"%string ->
  forallb readable recs = true ->
  for_rows fieldnames recs s =
  (M.Returned tt,
   Library (component_data s ++ flat_map (record_entries i j k) recs)
           (icon_buttons s) (scroll_layout s) (stdout s)).
Proof.
  intros Hnd Hi Hj Hk. revert s.
  induction recs as [|[fs|] recs IH]; intros s Hr; simpl in *.
  - rewrite app_nil_r. now destruct s.
  - destruct fs as [|f fs].
    + rewrite IH by exact Hr. now destruct i, j.
    + unfold M.bind.
      pose proof (field_nth fieldnames (f :: fs) i "parent" Hnd Hi) as Fp.
      pose proof (field_nth fieldnames (f :: fs) j "name" Hnd Hj) as Fn.
      pose proof (field_nth fieldnames (f :: fs) k "object" Hnd Hk) as Fo.
      destruct (nth_error (f :: fs) i) as [p|] eqn:Ep.
      2:{ rewrite load_row_rejected, IH; auto.
          unfold rejected. now rewrite Fp. }
      destruct (String.eqb_spec p "") as [->|Hp].
      { rewrite load_row_rejected, IH; auto.
        - now destruct (nth_error (f :: fs) j).
        - unfold rejected. now rewrite Fp. }
      destruct (nth_error (f :: fs) j) as [n|] eqn:En.
      2:{ rewrite load_row_rejected, IH; auto.
          unfold rejected. rewrite Fp, Fn. simpl.
          apply String.eqb_neq in Hp. now rewrite Hp. }
      destruct (String.eqb_spec n "") as [->|Hn].
      { rewrite load_row_rejected, IH; auto.
        unfold rejected. rewrite Fp, Fn. simpl.
        apply String.eqb_neq in Hp. now rewrite Hp. }
      rewrite (@load_row_accepted fieldnames (f :: fs) p n
                 (nth_error (f :: fs) k) s Fp Hp Fn Hn Fo).
      rewrite IH by exact Hr. simpl. now rewrite <- app_assoc.
  - discriminate.
Qed.

Lemma lstrip_trimmed (s : string) :
  (forall c, PyStr.first_char s = Some c -> PyStr.isspace c = false) ->
  PyStr.lstrip s = s.
Proof.
  destruct s as [|c s]; simpl; auto. intros H. now rewrite (H c eq_refl).
Qed.

Lemma rstrip_trimmed (s : string) :
  (forall c, PyStr.last_char s = Some c -> PyStr.isspace c = false) ->
  PyStr.rstrip s = s.
Proof.
  induction s as [|c s IH]; simpl; auto. intros H.
  destruct s as [|d s].
  - simpl. now rewrite (H c eq_refl).
  - rewrite IH by exact H. reflexivity.
Qed.

Lemma strip_trimmed (s : string) : PyStr.trimmed s -> PyStr.strip s = s.
Proof.
  intros [Hf Hl]. unfold PyStr.strip.
  rewrite lstrip_trimmed by exact Hf. now apply rstrip_trimmed.
Qed.

End LoadMore.

(** ** The loader, as a whole *)

(** A source whose header names each column once, with [parent], [name]
    and [object] at the positions [i], [j] and [k], and none of whose
    records makes the reader raise, is loaded without exception and
    without message: [component_data] grows by the entries of the
    records, in order, each read from the cells at [i], [j] and [k]
    wherever these columns stand. *)
Theorem load_reads_cells_by_column :
  forall (fieldnames : list string) (i j k : nat) (recs : list Csv.record)
         (s : library),
    NoDup fieldnames ->
    nth_error fieldnames i = Some "parent"%string ->
    nth_error fieldnames j = Some "name"%string ->
    nth_error fieldnames k = Some "object"%string ->
    forallb readable recs = true ->
    _load_components (Csv.Readable (Csv.Fields fieldnames :: recs)) s =
    (M.Returned tt,
     Library (component_data s ++ flat_map (record_entries i j k) recs)
             (icon_buttons s) (scroll_layout s) (stdout s)).
Proof.
  intros fieldnames i j k recs s Hnd Hi Hj Hk Hr.
  unfold _load_components, M.try_except. simpl.
  now rewrite (for_rows_cells fieldnames i j k recs s Hnd Hi Hj Hk Hr).
Qed.

(** Columns in the order object, name, parent. *)
Lemma load_reads_cells_by_column_witness :
  _load_components
    (Csv.Readable
       [Csv.Fields ["object"%string; "name"%string; "parent"%string];
        Csv.Fields ["v"%string; " X "%string; "A"%string];
        Csv.Fields ["w"%string; ""%string; "B"%string]]) fresh
  = (M.Returned tt, Library [Component "A" "X" "v"] [] [] []).
Proof.
  refine (load_reads_cells_by_column
            ["object"%string; "name"%string; "parent"%string] 2 1 0
            [Csv.Fields ["v"%string; " X "%string; "A"%string];
             Csv.Fields ["w"%string; ""%string; "B"%string]] fresh
            _ eq_refl eq_refl eq_refl eq_refl).
  repeat constructor; simpl; intuition discriminate.
Defined.

(** When the header lacks one of the columns [parent], [name] and
    [object], no row is loaded, whatever the records are: the first row
    that needs the column raises [KeyError], which ends the loop. *)
Theorem load_missing_column_loads_nothing :
  forall (fieldnames : list string) (recs : list Csv.record) (s : library),
    ~ (In "parent"%string fieldnames /\ In "name"%string fieldnames /\
       In "object"%string fieldnames) ->
    fst (_load_components (Csv.Readable (Csv.Fields fieldnames :: recs)) s)
      = M.Returned tt
    /\ component_data
         (snd (_load_components
                 (Csv.Readable (Csv.Fields fieldnames :: recs)) s))
       = component_data s.
Proof.
  intros fieldnames recs s H. split; [apply load_never_raises|].
  unfold _load_components, M.try_except, print_error, M.modify. simpl.
  pose proof (for_rows_missing_column fieldnames recs s H) as E.
  destruct (for_rows fieldnames recs s) as [[[]|e] s']; simpl in *;
    now subst s'.
Qed.

(** A header without the payload column. *)
Lemma load_missing_column_witness :
  component_data
    (snd (_load_components
            (Csv.Readable [Csv.Fields ["parent"%string; "name"%string];
                           Csv.Fields ["A"%string; "X"%string]]) fresh))
  = [].
Proof.
  refine (proj2 (load_missing_column_loads_nothing
                   ["parent"%string; "name"%string]
                   [Csv.Fields ["A"%string; "X"%string]] fresh _)).
  simpl. intuition discriminate.
Defined.

(** Whatever the source, [_load_components] only appends to
    [component_data], at most one entry for each record after the
    header, touches neither the buttons nor the layout, and prints at
    most one message. *)
Theorem load_appends_only :
  forall (csv : Csv.source) (s : library),
    exists added,
      component_data (snd (_load_components csv s)) = component_data s ++ added
      /\ List.length added <=
         match csv with
         | Csv.Readable recs => List.length recs - 1
         | _ => 0
         end
      /\ icon_buttons (snd (_load_components csv s)) = icon_buttons s
      /\ scroll_layout (snd (_load_components csv s)) = scroll_layout s
      /\ (stdout (snd (_load_components csv s)) = stdout s \/
          exists e, stdout (snd (_load_components csv s)) = stdout s ++ [e]).
Proof.
  intros csv s.
  destruct csv as [| |[|[fieldnames|] recs]].
  - exists []. simpl. rewrite app_nil_r. repeat split; auto.
  - exists []. simpl. rewrite app_nil_r. repeat split; eauto.
  - exists []. simpl. rewrite app_nil_r. repeat split; auto.
  - unfold _load_components, M.try_except, print_error, M.modify. simpl.
    destruct (for_rows_added fieldnames recs s) as (added & E & L & _).
    exists added. rewrite Nat.sub_0_r.
    destruct (for_rows fieldnames recs s) as [[[]|e] s']; simpl in *;
      subst s'; simpl; repeat split; eauto.
  - exists []. simpl. rewrite app_nil_r. repeat split; eauto. lia.
Qed.

(** Stripping leaves white space at neither end of a stored field. *)
Lemma panel_fields_trimmed :
  forall (csv : Csv.source) (path_exists : string -> bool),
    Forall (fun e => PyStr.trimmed (parent e) /\ PyStr.trimmed (name e) /\
                     PyStr.trimmed (object e))
           (component_data (panel csv path_exists)).
Proof.
  intros csv path_exists. rewrite panel_data.
  destruct csv as [| |[|[fieldnames|] recs]]; try (simpl; constructor).
  unfold _load_components, M.try_except, print_error, M.modify. simpl.
  destruct (for_rows_added fieldnames recs fresh) as (added & E & _ & T).
  destruct (for_rows fieldnames recs fresh) as [[[]|e] s']; simpl in *;
    subst s'; simpl; exact T.
Qed.

(** No field of a loaded entry begins or ends with white space. *)
Theorem loaded_fields_trimmed :
  forall (csv : Csv.source) (path_exists : string -> bool),
    Forall (fun e => PyStr.trimmed (parent e) /\ PyStr.trimmed (name e) /\
                     PyStr.trimmed (object e))
           (component_data (panel csv path_exists)).
Proof. exact panel_fields_trimmed. Qed.

(** Loading is stable on its own output: an entry of the panel whose
    category and name are not empty, written as a row under the header
    parent, name, object, loads as the same entry. *)
Theorem loaded_entry_reloads_unchanged :
  forall (csv : Csv.source) (path_exists : string -> bool) (e : component)
         (s : library),
    In e (component_data (panel csv path_exists)) ->
    parent e <> EmptyString -> name e <> EmptyString ->
    load_row (Csv.dict_row header [parent e; name e; object e]) s
    = (M.Returned tt, appended s e).
Proof.
  intros csv path_exists e s Hin Hp Hn.
  pose proof (panel_fields_trimmed csv path_exists) as T.
  rewrite Forall_forall in T. destruct (T e Hin) as (Tp & Tn & To).
  rewrite (@load_row_accepted header [parent e; name e; object e]
             (parent e) (name e) (Some (object e)) s eq_refl Hp eq_refl Hn
             eq_refl).
  simpl. rewrite !strip_trimmed by assumption. now destruct e.
Qed.

(** The entry (B, Y, w) of a loaded panel. *)
Lemma loaded_entry_reloads_witness :
  load_row (Csv.dict_row header ["B"%string; "Y"%string; "w"%string]) fresh
  = (M.Returned tt, appended fresh (Component "B" "Y" "w")).
Proof.
  refine (loaded_entry_reloads_unchanged valid_row_alone every_icon
            (Component "B" "Y" "w") fresh _ _ _).
  - left. reflexivity.
  - discriminate.
  - discriminate.
Defined.

(** ** The grids and the order of the buttons *)

Section GridFacts.
Variable path_exists : string -> bool.

Lemma place_buttons_fst (k : string) (cs : list component) (row col : nat) :
  map fst (place_buttons path_exists k cs row col) = add_buttons path_exists k cs.
Proof.
  revert row col. induction cs as [|c cs IH]; intros row col; [reflexivity|].
  cbn [place_buttons add_buttons].
  destruct (path_exists (_get_icon_path k (name c))); [|apply IH].
  destruct (max_cols <=? col + 1); cbn [map fst]; now rewrite IH.
Qed.

Lemma place_buttons_cell (k : string) (cs : list component) :
  forall (row col i : nat) (b : ComponentButton) (r c : nat),
    col < max_cols ->
    nth_error (place_buttons path_exists k cs row col) i = Some (b, (r, c)) ->
    r * max_cols + c = row * max_cols + col + i /\ c < max_cols.
Proof.
  induction cs as [|x cs IH]; intros row col i b r c Hcol Hi;
    cbn [place_buttons] in Hi.
  - destruct i; discriminate.
  - destruct (path_exists (_get_icon_path k (name x))); [|eauto].
    destruct (Nat.leb_spec max_cols (col + 1)) as [Hw|Hw].
    + destruct i as [|i]; cbn [nth_error] in Hi.
      * injection Hi as _ <- <-. lia.
      * apply IH in Hi; unfold max_cols in *; lia.
    + destruct i as [|i]; cbn [nth_error] in Hi.
      * injection Hi as _ <- <-. lia.
      * apply IH in Hi; unfold max_cols in *; lia.
Qed.

End GridFacts.

(** The cell of the button number [i] of a grid. *)
Lemma grid_cells_position :
  forall (path_exists : string -> bool) (k : string) (cs : list component)
         (i : nat) (b : ComponentButton) (r c : nat),
    nth_error (grid_cells path_exists k cs) i = Some (b, (r, c)) ->
    nth_error (add_buttons path_exists k cs) i = Some b
    /\ r = i / max_cols /\ c = i mod max_cols.
Proof.
  intros path_exists k cs i b r c H. split.
  - rewrite <- (place_buttons_fst path_exists k cs 0 0), nth_error_map.
    unfold grid_cells in H. now rewrite H.
  - apply place_buttons_cell in H; [|unfold max_cols; lia].
    destruct H as [E L]. simpl in E. split.
    + apply (Nat.div_unique i max_cols r c); lia.
    + apply (Nat.mod_unique i max_cols r c); lia.
Qed.

(** The buttons of a category fill their grid row by row, five to a
    row: the button that is number [i] among the buttons of the category
    (counting from 0) stands in row [i / 5], column [i mod 5]. *)
Theorem grid_cells_row_major :
  forall (path_exists : string -> bool) (k : string) (cs : list component)
         (i : nat) (b : ComponentButton) (r c : nat),
    nth_error (grid_cells path_exists k cs) i = Some (b, (r, c)) ->
    nth_error (add_buttons path_exists k cs) i = Some b
    /\ r = i / max_cols /\ c = i mod max_cols.
Proof. exact grid_cells_position. Qed.

(** The seventh button of a category. *)
Lemma grid_cells_row_major_witness :
  (1 = 6 / max_cols /\ 1 = 6 mod max_cols).
Proof.
  refine (proj2 (grid_cells_row_major every_icon "A"
            (map (fun n => Component "A" n "") 
                 ["a"; "b"; "c"; "d"; "e"; "f"; "g"]%string)
            6 (Button (Component "A" "g" "") true "A" "g" true None) 1 1 _)).
  reflexivity.
Defined.

(** No two buttons of a category are put in the same cell of the grid. *)
Theorem grid_cells_distinct :
  forall (path_exists : string -> bool) (k : string) (cs : list component),
    NoDup (map snd (grid_cells path_exists k cs)).
Proof.
  intros path_exists k cs. apply NoDup_nth_error. intros i j Hi E.
  rewrite !nth_error_map in E. rewrite length_map in Hi.
  destruct (nth_error (grid_cells path_exists k cs) i) as [[b [r c]]|] eqn:Ei.
  2:{ apply nth_error_None in Ei. lia. }
  destruct (nth_error (grid_cells path_exists k cs) j) as [[b' [r' c']]|] eqn:Ej;
    [|discriminate].
  simpl in E. injection E as <- <-.
  apply grid_cells_position in Ei as (_ & Hr & Hc).
  apply grid_cells_position in Ej as (_ & Hr' & Hc').
  unfold max_cols in *.
  rewrite (Nat.div_mod_eq i 5), (Nat.div_mod_eq j 5). lia.
Qed.

(** [_populate_icons] clears [icon_buttons] before it fills it: run
    again, also after a filter, it makes the same buttons once more, all
    visible, and duplicates none. *)
Theorem populate_again_makes_the_same_buttons :
  forall (path_exists : string -> bool) (search_text : string) (s : library),
    icon_buttons (populate path_exists (populate path_exists s))
      = icon_buttons (populate path_exists s)
    /\ icon_buttons
         (populate path_exists
            (_filter_icons search_text (populate path_exists s)))
       = icon_buttons (populate path_exists s)
    /\ component_data (populate path_exists (populate path_exists s))
       = component_data s.
Proof.
  intros path_exists search_text s.
  rewrite !populate_buttons, !populate_data. simpl.
  rewrite populate_data. auto.
Qed.

Section OrderFacts.
Variable path_exists : string -> bool.

Lemma add_buttons_sorted (k : string) (cs : list component) :
  StronglySorted (fun a b => PyStr.le (name a) (name b)) cs ->
  StronglySorted button_le (add_buttons path_exists k cs).
Proof.
  induction 1 as [|c cs Hs IH Hall]; simpl; [constructor|].
  destruct (path_exists (_get_icon_path k (name c))); auto.
  constructor; auto. apply Forall_forall. intros b Hb.
  apply add_buttons_props in Hb as (Hc & Hn & _ & _ & Hin & _).
  right. simpl. rewrite Hc, Hn. split; auto.
  rewrite Forall_forall in Hall. now apply Hall.
Qed.

Lemma StronglySorted_app (A : Type) (R : A -> A -> Prop) (l1 l2 : list A) :
  StronglySorted R l1 -> StronglySorted R l2 ->
  (forall a b, In a l1 -> In b l2 -> R a b) ->
  StronglySorted R (l1 ++ l2).
Proof.
  induction 1 as [|x l1 Hs IH Hall]; simpl; intros H2 Hc; auto.
  constructor.
  - apply IH; auto.
  - apply Forall_app. split; auto.
    apply Forall_forall. intros b Hb. apply Hc; auto.
Qed.

Lemma catalog_buttons_sorted (cat : list (string * list component)) :
  StronglySorted PyStr.lt (map fst cat) ->
  Forall (fun kc => StronglySorted (fun a b => PyStr.le (name a) (name b))
                                   (snd kc)) cat ->
  StronglySorted button_le
    (flat_map (fun kc => add_buttons path_exists (fst kc) (snd kc)) cat).
Proof.
  induction cat as [|[k cs] cat IH]; simpl; intros Hk Hc; [constructor|].
  inversion_clear Hk as [|? ? Hk' Hlt]. inversion_clear Hc as [|? ? Hcs Hc'].
  apply StronglySorted_app; auto.
  - now apply add_buttons_sorted.
  - intros a b Ha Hb. apply in_flat_map in Hb as ([k' cs'] & Hin & Hb).
    apply add_buttons_props in Ha as (Ha & _).
    apply add_buttons_props in Hb as (Hb & _). simpl in *.
    left. rewrite Ha, Hb. rewrite Forall_forall in Hlt.
    apply Hlt. apply in_map_iff. now exists (k', cs').
Qed.

End OrderFacts.

(** [icon_buttons], the list that [_filter_icons] walks, is in ascending
    order of category and, within a category, of name. *)
Theorem icon_buttons_sorted_by_category_then_name :
  forall (path_exists : string -> bool) (s : library),
    StronglySorted button_le (icon_buttons (populate path_exists s)).
Proof.
  intros path_exists s. rewrite populate_buttons.
  apply catalog_buttons_sorted.
  - rewrite catalog_keys. apply sorted_keys_strict, keys_grouped_NoDup.
  - apply Forall_forall. intros [k cs] Hkc. simpl.
    rewrite (catalog_entries _ _ _ Hkc). apply sorted_StronglySorted.
Qed.

(** ** The search filter over time *)

Section FilterFacts.

Lemma append_assoc (a b c : string) :
  ((a ++ b) ++ c = a ++ b ++ c)%string.
Proof. induction a as [|x a IH]; simpl; now rewrite ?IH. Qed.

Lemma substring_of_trans (a b c : string) :
  PyStr.substring_of a b -> PyStr.substring_of b c -> PyStr.substring_of a c.
Proof.
  intros (p1 & s1 & ->) (p2 & s2 & ->).
  exists (p2 ++ p1)%string, (s1 ++ s2)%string.
  now rewrite !append_assoc.
Qed.

Lemma filter_button_twice (q q' : string) (b : ComponentButton) :
  filter_button q (filter_button q' b) = filter_button q b.
Proof. reflexivity. Qed.

Lemma filter_widget_twice (q q' : string) (w : widget) :
  filter_widget q (filter_widget q' w) = filter_widget q w.
Proof.
  destruct w as [t|cells]; simpl; auto.
  rewrite map_map. f_equal.
Qed.

Lemma filter_twice (q q' : string) (s : library) :
  _filter_icons q (_filter_icons q' s) = _filter_icons q s.
Proof.
  unfold _filter_icons. simpl. rewrite !map_map. f_equal.
  apply map_ext. intros w. apply filter_widget_twice.
Qed.

Lemma sections_filter (q : string) (n : nat) :
  forall ws, List.length ws <= n ->
    sections (map (filter_widget q) ws) =
    map (fun sec => (fst sec, map (filter_button q) (snd sec))) (sections ws).
Proof.
  induction n as [|n IH]; intros ws Hn.
  - destruct ws; [reflexivity | simpl in Hn; lia].
  - destruct ws as [|[t|c] [|[t'|c'] ws]]; simpl; auto.
    rewrite IH; auto. simpl in Hn. lia.
Qed.

Lemma labels_filter (q : string) (ws : list widget) :
  labels (map (filter_widget q) ws) = labels ws.
Proof.
  induction ws as [|[t|c] ws IH]; simpl; now rewrite ?IH.
Qed.

End FilterFacts.

(** After any sequence of changes of the search text, the panel is as if
    only the last text had been typed: the filter keeps no history. *)
Theorem filter_depends_on_last_text_only :
  forall (texts : list string) (last : string) (s : library),
    fold_left (fun s q => _filter_icons q s) (texts ++ [last]) s
    = _filter_icons last s.
Proof.
  intros texts last s. rewrite fold_left_app. simpl.
  revert s. induction texts as [|q texts IH]; intros s; simpl; auto.
  now rewrite IH, filter_twice.
Qed.

(** Typing never changes what the palette holds: after any sequence of
    search texts the entries, the category labels and the entries behind
    the buttons are those of the populated panel, and the grids still
    hold exactly the buttons of [icon_buttons], with the same
    visibility. *)
Theorem filter_changes_visibility_only :
  forall (path_exists : string -> bool) (texts : list string) (s : library),
    component_data
      (fold_left (fun s q => _filter_icons q s) texts (populate path_exists s))
      = component_data s
    /\ labels (scroll_layout
         (fold_left (fun s q => _filter_icons q s) texts
            (populate path_exists s)))
       = labels (scroll_layout (populate path_exists s))
    /\ map btn_data (icon_buttons
         (fold_left (fun s q => _filter_icons q s) texts
            (populate path_exists s)))
       = map btn_data (icon_buttons (populate path_exists s))
    /\ flat_map snd (sections (scroll_layout
         (fold_left (fun s q => _filter_icons q s) texts
            (populate path_exists s))))
       = icon_buttons
           (fold_left (fun s q => _filter_icons q s) texts
              (populate path_exists s)).
Proof.
  intros path_exists texts s.
  induction texts as [|q texts IH] using rev_ind.
  - simpl. rewrite populate_data. repeat split.
    rewrite populate_layout, layout_sections, populate_buttons.
    rewrite !flat_map_concat_map, map_map. reflexivity.
  - rewrite fold_left_app. simpl.
    destruct IH as (H1 & H2 & H3 & H4).
    set (t := fold_left (fun s q => _filter_icons q s) texts
                (populate path_exists s)) in *.
    unfold _filter_icons. simpl. repeat split; auto.
    + now rewrite labels_filter.
    + rewrite map_map. simpl. exact H3.
    + rewrite (sections_filter _ (List.length (scroll_layout t))) by lia.
      rewrite <- H4. rewrite !flat_map_concat_map, concat_map, !map_map.
      reflexivity.
Qed.

(** A longer search text only hides: when the lower-cased text [q]
    occurs inside the lower-cased text [q'], every button left visible
    by [q'] is left visible by [q]. *)
Theorem filter_longer_text_only_hides :
  forall (q q' : string) (s : library),
    PyStr.substring_of (PyStr.lower q) (PyStr.lower q') ->
    Forall2 (fun b b' => visible b' = true -> visible b = true)
            (icon_buttons (_filter_icons q s))
            (icon_buttons (_filter_icons q' s)).
Proof.
  intros q q' s Hq. unfold _filter_icons. simpl.
  induction (icon_buttons s) as [|b l IH]; simpl; constructor; auto.
  unfold filter_button. simpl.
  rewrite !orb_true_iff, !PyStrFacts.contains_spec.
  intros [H|H]; [left|right]; eapply substring_of_trans; eauto.
Qed.

(** The texts SL and slid on the palette of two inputs. *)
Lemma filter_longer_text_witness :
  Forall2 (fun b b' => visible b' = true -> visible b = true)
          (icon_buttons (_filter_icons "SL" (panel inputs_rows every_icon)))
          (icon_buttons (_filter_icons "slid" (panel inputs_rows every_icon))).
Proof.
  apply (filter_longer_text_only_hides "SL" "slid"
           (panel inputs_rows every_icon)).
  exists EmptyString, "id"%string. reflexivity.
Defined.

(** ** Icon paths *)

Section PathFacts.

Lemma startswith_sep_no_slash (s : string) :
  no_slash s = true ->
  PyStr.startswith (String OsPath.sep EmptyString) s = false.
Proof.
  destruct s as [|c s]; [reflexivity|].
  cbn [no_slash PyStr.startswith]. rewrite (Ascii.eqb_sym OsPath.sep c).
  destruct (Ascii.eqb c OsPath.sep); intros H; [discriminate H | reflexivity].
Qed.

Lemma endswith_char_append (c : ascii) (a b : string) :
  b <> EmptyString ->
  PyStr.endswith_char c (a ++ b) = PyStr.endswith_char c b.
Proof.
  intros Hb. induction a as [|x a IH]; simpl; auto.
  destruct (a ++ b)%string eqn:E; auto.
  destruct a; simpl in E; [contradiction | discriminate].
Qed.

Lemma endswith_sep_no_slash (s : string) :
  no_slash s = true -> PyStr.endswith_char OsPath.sep s = false.
Proof.
  induction s as [|c s IH]; [reflexivity|].
  cbn [no_slash PyStr.endswith_char].
  destruct (Ascii.eqb c OsPath.sep) eqn:E; intros H; [discriminate H|].
  destruct s; auto.
Qed.

Lemma no_slash_append (a b : string) :
  no_slash (a ++ b) = no_slash a && no_slash b.
Proof.
  induction a as [|x a IH]; [reflexivity|].
  cbn [append no_slash]. now rewrite IH, andb_assoc.
Qed.





(** The path of an icon when neither the category nor the name holds a
    separator. *)
Lemma icon_path_no_slash (parent name : string) :
  no_slash parent = true -> no_slash name = true ->
  _get_icon_path parent name =
  ("ui/assets/png/" ++
   (if (parent =? "")%string then EmptyString
    else parent ++ String OsPath.sep EmptyString)
   ++ name ++ ".png")%string.
Proof.
  intros Hp Hn. unfold _get_icon_path, OsPath.join.
  cbn [fold_left].
  change (OsPath.join2 (OsPath.join2 "ui" "assets") "png")
    with "ui/assets/png"%string.
  assert (Hbase : OsPath.join2 "ui/assets/png" parent
                  = ("ui/assets/png/" ++ parent)%string).
  { unfold OsPath.join2. now rewrite startswith_sep_no_slash. }
  rewrite Hbase. unfold OsPath.join2.
  rewrite startswith_sep_no_slash
    by (rewrite no_slash_append, Hn; reflexivity).
  destruct (String.eqb_spec parent "") as [->|Hne].
  - reflexivity.
  - replace (("ui/assets/png/" ++ parent =? "")%string) with false
      by reflexivity.
    rewrite endswith_char_append by exact Hne.
    rewrite endswith_sep_no_slash by exact Hp.
    cbn [orb]. rewrite !append_assoc. reflexivity.
Qed.

End PathFacts.

(** For a category that is not empty and a name, both without path
    separator, the icon is looked up at
    ui/assets/png/<category>/<name>.png. *)
Theorem icon_path_under_icon_root :
  forall (parent name : string),
    no_slash parent = true -> parent <> EmptyString ->
    no_slash name = true ->
    _get_icon_path parent name =
    ("ui/assets/png/" ++ parent ++ "/" ++ name ++ ".png")%string.
Proof.
  intros parent name Hp Hne Hn. rewrite icon_path_no_slash by assumption.
  apply String.eqb_neq in Hne. rewrite Hne.
  now rewrite append_assoc.
Qed.

Lemma icon_path_under_icon_root_witness :
  _get_icon_path "Valves" "Gate Valve"
  = ("ui/assets/png/" ++ "Valves" ++ "/" ++ "Gate Valve" ++ ".png")%string.
Proof.
  apply (icon_path_under_icon_root "Valves" "Gate Valve");
    [reflexivity | discriminate | reflexivity].
Defined.




(** ** The press position over time *)

Section HistoryFacts.

Lemma after_cons (bs : list ComponentButton) (ev : pointer_event)
      (evs : list pointer_event) :
  after bs (ev :: evs) = after (fst (deliver bs ev)) evs.
Proof. reflexivity. Qed.

Lemma deliver_keeps (bs : list ComponentButton) (ev : pointer_event)
      (i : nat) (b : ComponentButton) :
  nth_error bs i = Some b ->
  exists b1,
    nth_error (fst (deliver bs ev)) i = Some b1 /\
    dragStartPosition b1 = last_left_press i [ev] (dragStartPosition b) /\
    btn_data b1 = btn_data b /\ has_icon b1 = has_icon b /\
    prop_category b1 = prop_category b /\
    prop_component_name b1 = prop_component_name b /\
    visible b1 = visible b.
Proof.
  intros Hb. destruct ev as [j e|j e|j e].
  - cbn [deliver fst last_left_press]. rewrite nth_error_update_nth, Hb.
    destruct (Nat.eqb j i); cbn [andb option_map].
    + unfold mousePressEvent.
      destruct (button e =? Qt.LeftButton)%N; eexists; repeat split.
    + exists b. repeat split; auto.
  - rewrite deliver_move_state. exists b. repeat split; auto.
  - exists b. repeat split; auto.
Qed.

Lemma last_left_press_cons (i : nat) (ev : pointer_event)
      (evs : list pointer_event) (start : option QPoint) :
  last_left_press i (ev :: evs) start =
  last_left_press i evs (last_left_press i [ev] start).
Proof.
  destruct ev as [j e|j e|j e]; cbn [last_left_press]; auto.
  now destruct (Nat.eqb j i && (button e =? Qt.LeftButton)%N).
Qed.

End HistoryFacts.

(** The state of a button after a run of events. *)
Lemma press_history :
  forall (evs : list pointer_event) (bs : list ComponentButton) (i : nat)
         (b : ComponentButton),
    nth_error bs i = Some b ->
    exists b',
      nth_error (after bs evs) i = Some b' /\
      dragStartPosition b' = last_left_press i evs (dragStartPosition b) /\
      btn_data b' = btn_data b /\ has_icon b' = has_icon b /\
      prop_category b' = prop_category b /\
      prop_component_name b' = prop_component_name b /\
      visible b' = visible b.
Proof.
  induction evs as [|ev evs IH]; intros bs i b Hb.
  - exists b. repeat split; auto.
  - rewrite after_cons, last_left_press_cons.
    destruct (deliver_keeps bs ev i b Hb)
      as (b1 & Hb1 & Hs & Hd & Hi & Hc & Hn & Hv).
    destruct (IH (fst (deliver bs ev)) i b1 Hb1)
      as (b' & Hb' & Hs' & Hd' & Hi' & Hc' & Hn' & Hv').
    exists b'. rewrite Hs', Hs. repeat split; congruence.
Qed.

(** After any sequence of pointer events, the press position of a
    button is the position of the last left press delivered to that
    button, or what it was before when there is none: presses of other
    mouse buttons, presses on other buttons of the palette, moves,
    drags and releases leave it alone, and no event changes the entry,
    the icon, the properties or the visibility of a button. *)
Theorem press_position_is_last_left_press :
  forall (evs : list pointer_event) (bs : list ComponentButton) (i : nat)
         (b : ComponentButton),
    nth_error bs i = Some b ->
    exists b',
      nth_error (after bs evs) i = Some b' /\
      dragStartPosition b' = last_left_press i evs (dragStartPosition b) /\
      btn_data b' = btn_data b /\ has_icon b' = has_icon b /\
      prop_category b' = prop_category b /\
      prop_component_name b' = prop_component_name b /\
      visible b' = visible b.
Proof. exact press_history. Qed.

(** A left press, a right press elsewhere and a release. *)
Lemma press_position_witness :
  exists b',
    nth_error
      (after [sample_button]
         [Press 0 (left_press (Point 5 5));
          Press 0 (MouseEvent Qt.RightButton Qt.RightButton (Point 9 9));
          Release 0 (left_press (Point 9 9))]) 0 = Some b'
    /\ dragStartPosition b' = Some (Point 5 5).
Proof.
  destruct (press_position_is_last_left_press
              [Press 0 (left_press (Point 5 5));
               Press 0 (MouseEvent Qt.RightButton Qt.RightButton (Point 9 9));
               Release 0 (left_press (Point 9 9))]
              [sample_button] 0 sample_button eq_refl)
    as (b' & H1 & H2 & _).
  exists b'. split; [exact H1 | exact H2].
Defined.

Lemma wrap_int_small (z : Z) :
  (- 2 ^ 31 <= z < 2 ^ 31)%Z -> wrap_int z = z.
Proof.
  intros H. unfold wrap_int. rewrite Z.mod_small; lia.
Qed.

(** Away from the ends of the range of a C int, the distance that line
    47 computes is the distance over the integers. *)
Lemma manhattanLength_int_safe (a b : QPoint) :
  int_safe a -> int_safe b ->
  manhattanLength_int (QPoint_sub_int a b) = manhattanLength (QPoint_sub a b).
Proof.
  unfold int_safe, manhattanLength_int, QPoint_sub_int, manhattanLength,
    QPoint_sub.
  cbn [px py]. intros [Ha1 Ha2] [Hb1 Hb2].
  assert (E : (2 ^ 29 = 536870912 /\ 2 ^ 31 = 2147483648)%Z)
    by (split; reflexivity).
  destruct E as [E29 E31]. rewrite E29 in *.
  rewrite (wrap_int_small (px a - px b)) by lia.
  rewrite (wrap_int_small (py a - py b)) by lia.
  rewrite (wrap_int_small (Z.abs (px a - px b))) by lia.
  rewrite (wrap_int_small (Z.abs (py a - py b))) by lia.
  apply wrap_int_small. lia.
Qed.

(** The press position is never cleared: once the last left press on a
    button was at a point [p] other than (0, 0), every later move over
    that button with the left button held and at least ten pixels of
    Manhattan distance from [p] starts a drag with the payload of the
    entry, also after a release or an earlier drag.  The coordinates of
    the two points are below 2^29 in absolute value, so that the
    distance computed on C ints is the distance over the integers. *)
Theorem armed_button_drags_on_every_far_move :
  forall (evs : list pointer_event) (bs : list ComponentButton) (i : nat)
         (b : ComponentButton) (p : QPoint) (e : QMouseEvent),
    nth_error bs i = Some b ->
    last_left_press i evs (dragStartPosition b) = Some p ->
    isNull p = false ->
    N.land (buttons e) Qt.LeftButton <> 0%N ->
    int_safe p -> int_safe (pos e) ->
    (10 <= manhattanLength_int (QPoint_sub_int (pos e) p))%Z ->
    manhattanLength_int (QPoint_sub_int (pos e) p)
      = manhattanLength (QPoint_sub (pos e) p)
    /\ exists d,
         snd (deliver (after bs evs) (Move i e)) = Some (i, d) /\
         mime_text d = object (btn_data b).
Proof.
  intros evs bs i b p e Hb Hp Hn Hl Sp Se Hd.
  pose proof (manhattanLength_int_safe (pos e) p Se Sp) as Hsafe.
  split; [exact Hsafe|]. rewrite Hsafe in Hd.
  destruct (press_history evs bs i b Hb)
    as (b' & Hb' & Hs & Hdata & _).
  cbn [deliver]. rewrite Hb'.
  rewrite (@move_beyond_threshold b' e p Hl (eq_trans Hs Hp) Hn Hd).
  eexists. split; [reflexivity|]. cbn [mime_text]. now rewrite Hdata.
Qed.

(** A drag, a release, and a second far move without a new press. *)
Lemma armed_button_witness :
  exists d,
    snd (deliver
           (after [sample_button]
              [Press 0 (left_press (Point 5 5));
               Move 0 (left_move (Point 30 5));
               Release 0 (left_press (Point 30 5))])
           (Move 0 (left_move (Point 40 5))))
    = Some (0, d)
    /\ mime_text d = "widget:button"%string.
Proof.
  refine (proj2 (armed_button_drags_on_every_far_move
           [Press 0 (left_press (Point 5 5));
            Move 0 (left_move (Point 30 5));
            Release 0 (left_press (Point 30 5))]
           [sample_button] 0 sample_button (Point 5 5)
           (left_move (Point 40 5)) _ _ _ _ _ _ _));
    try reflexivity.
  - discriminate.
  - split; reflexivity.
  - split; reflexivity.
  - vm_compute. discriminate.
Defined.

(** A move that stays within ten pixels of Manhattan distance from the
    last left press on the button starts no drag, whatever happened
    before. *)
Theorem near_move_starts_no_drag :
  forall (evs : list pointer_event) (bs : list ComponentButton) (i : nat)
         (b : ComponentButton) (p : QPoint) (e : QMouseEvent),
    nth_error bs i = Some b ->
    last_left_press i evs (dragStartPosition b) = Some p ->
    (manhattanLength (QPoint_sub (pos e) p) < 10)%Z ->
    snd (deliver (after bs evs) (Move i e)) = None.
Proof.
  intros evs bs i b p e Hb Hp Hd.
  destruct (press_history evs bs i b Hb)
    as (b' & Hb' & Hs & _).
  cbn [deliver]. rewrite Hb'.
  now rewrite (@move_below_threshold b' e p (eq_trans Hs Hp) Hd).
Qed.

(** A move of three pixels after a press at (5, 5). *)
Lemma near_move_witness :
  snd (deliver (after [sample_button] [Press 0 (left_press (Point 5 5))])
               (Move 0 (left_move (Point 7 6)))) = None.
Proof.
  apply (near_move_starts_no_drag
           [Press 0 (left_press (Point 5 5))] [sample_button] 0
           sample_button (Point 5 5) (left_move (Point 7 6)));
    reflexivity.
Defined.

(** The layout built by [_populate_icons] is a sequence of pairs, a
    category label followed by the grid of that category, one pair for
    each category of the loaded entries, also for a category none of
    whose entries has an icon (its grid is then empty). *)
Theorem layout_is_label_grid_pairs :
  forall (path_exists : string -> bool) (s : library),
    scroll_layout (populate path_exists s)
      = flat_map (fun sec => [QLabel (fst sec); Grid (snd sec)])
                 (sections (scroll_layout (populate path_exists s)))
    /\ map fst (sections (scroll_layout (populate path_exists s)))
       = map fst (catalog (component_data s))
    /\ Forall (fun sec =>
                 (forall c, In c (component_data s) -> parent c = fst sec ->
                            icon_exists path_exists c = false) ->
                 snd sec = [])
              (sections (scroll_layout (populate path_exists s))).
Proof.
  intros path_exists s. rewrite populate_layout, layout_sections.
  repeat split.
  - rewrite !flat_map_concat_map, map_map. reflexivity.
  - rewrite map_map. reflexivity.
  - apply Forall_forall. intros sec Hsec.
    apply in_map_iff in Hsec as ([k cs] & <- & Hkc). simpl. intros Hno.
    destruct (add_buttons path_exists k cs) as [|b bs] eqn:E; auto.
    exfalso.
    assert (Hb : In b (add_buttons path_exists k cs)) by (rewrite E; now left).
    apply add_buttons_props in Hb as (_ & _ & _ & _ & Hin & Hex).
    pose proof (catalog_parent _ _ _ _ Hkc Hin) as Hp.
    rewrite (catalog_entries _ _ _ Hkc) in Hin.
    apply sorted_In, filter_In in Hin as [Hin _].
    specialize (Hno (btn_data b) Hin Hp). unfold icon_exists in Hno.
    rewrite Hp in Hno. congruence.
Qed.
